(** * The application store of the installer: [lib/gui/models/store.js]

    A shallow embedding of the redux reducer [storeReducer] and of the data it
    works on, followed by the properties of the store's specification.

    Modelling conventions.

    - JavaScript data is the type [value]: primitives, arrays and plain
      objects.  An object is a finite map from property names to values
      (property order is never observed by the reducer).  Numbers are [NaN]
      or an integral number: the reducer performs no arithmetic, it only asks
      whether a number is falsy ([0] or [NaN]), whether a value is a number,
      and how two numbers compare.
    - [Immutable.fromJS] and [toJS] are mutually inverse on such data, so an
      Immutable [Map] is identified with the plain object it converts to and
      an Immutable [List] with the array.  Calling [toJS] on anything else is
      a [TypeError], as in JavaScript.
    - An exception is an explicit outcome ([Throws]); a template-literal
      message keeps the interpolated value instead of its rendering.
    - [storeReducer] calls itself only with a literal action type, so each
      [case] of its [switch] is one definition ([case_REMOVE_IMAGE], ...),
      given in dependency order; a recursive call is a call of that
      definition.  Only [SELECT_OS] can hand back the result of [_.attempt]
      unchanged, so only it can return an [Error] object where a state is
      expected ([ErrObj]).
    - The module [../../shared/drive-constraints] is not part of the sources:
      its four predicates are the fields of the record [Constraints], a
      parameter of the reducer.  The JavaScript comparison [>] on arbitrary
      values, used by [_.maxBy], is the parameter [baseGt].
    - Arrays carry no named properties and array-likes other than arrays are
      not iterated by [_.maxBy]; objects are never identical ([===]) to
      anything, since the model has no object identity. *)

From stdpp Require Import gmap strings list fin_maps.
From Stdlib Require Import ZArith.

Set Warnings "-register-all".

(** ** JavaScript values *)

Inductive number :=
| NaN
| Num (z : Z).

Inductive value :=
| VUndef
| VNull
| VBool (b : bool)
| VNum (n : number)
| VStr (s : string)
| VArr (l : list value)
| VObj (o : gmap string value).

(** [new Error('msg')], [new Error(`msg${v}`)], and the [TypeError] the
    runtime raises for a property read on [undefined]/[null] or a call of a
    method the receiver does not have. *)
Inductive error :=
| Error (msg : string)
| ErrorOf (msg : string) (v : value)
| TypeError (msg : string).

Inductive result (A : Type) :=
| Returns (a : A)
| Throws (e : error).

Arguments Returns {A} a.
Arguments Throws {A} e.

#[global] Instance result_ret : MRet result := @Returns.

#[global] Instance result_bind : MBind result :=
  λ A B f m, match m with Returns a => f a | Throws e => Throws e end.

(** ToBoolean. *)
Definition truthy (v : value) : bool :=
  match v with
  | VUndef | VNull => false
  | VBool b => b
  | VNum NaN => false
  | VNum (Num z) => negb (z =? 0)%Z
  | VStr s => negb (String.eqb s "")
  | VArr _ | VObj _ => true
  end.

(** The strict equality [===]. *)
Definition strict_eq (a b : value) : bool :=
  match a, b with
  | VUndef, VUndef | VNull, VNull => true
  | VBool x, VBool y => Bool.eqb x y
  | VNum (Num x), VNum (Num y) => (x =? y)%Z
  | VStr x, VStr y => String.eqb x y
  | _, _ => false
  end.

(** [o[k]] on an object: [undefined] when the property is missing. *)
Definition get (o : gmap string value) (k : string) : value :=
  default VUndef (o !! k).

(** The property read [v.k], for the property names the reducer uses (never
    [length] or an index). *)
Definition prop (v : value) (k : string) : result value :=
  match v with
  | VUndef => Throws (TypeError ("Cannot read property '" +:+ k +:+ "' of undefined"))
  | VNull => Throws (TypeError ("Cannot read property '" +:+ k +:+ "' of null"))
  | VObj o => Returns (get o k)
  | _ => Returns VUndef
  end.

(** [collection.toJS()] on a value read out of the Immutable state. *)
Definition toJS (v : value) : result value :=
  match v with
  | VObj _ | VArr _ => Returns v
  | _ => Throws (TypeError "toJS is not a function")
  end.

(** ** lodash *)

Definition isString (v : value) : bool :=
  match v with VStr _ => true | _ => false end.

Definition isNumber (v : value) : bool :=
  match v with VNum _ => true | _ => false end.

Definition isBoolean (v : value) : bool :=
  match v with VBool _ => true | _ => false end.

Definition isUndefined (v : value) : bool :=
  match v with VUndef => true | _ => false end.

Definition isNull (v : value) : bool :=
  match v with VNull => true | _ => false end.

Definition isObject (v : value) : bool :=
  match v with VObj _ | VArr _ => true | _ => false end.

Definition isEmpty (v : value) : bool :=
  match v with
  | VObj o => match map_to_list o with [] => true | _ => false end
  | VArr l => match l with [] => true | _ => false end
  | VStr s => String.eqb s ""
  | _ => true
  end.

(** [_.isArray(data) && _.every(data, _.isPlainObject)], returning the
    elements. *)
Definition plainObjects (data : value) : option (list (gmap string value)) :=
  match data with
  | VArr l => mapM (λ v, match v with VObj o => Some o | _ => None end) l
  | _ => None
  end.

Section Lodash.

Variable baseGt : value → value → bool.

(** The loop of lodash's [baseExtremum] with the comparator [baseGt]:
    [computed] stays [undefined] ([None]) until a first element is kept. *)
Fixpoint baseExtremum (iteratee : value → result value) (array : list value)
    (computed : option value) (res : value) : result value :=
  match array with
  | [] => Returns res
  | v :: rest =>
      current ← iteratee v;
      if negb (isUndefined current || isNull current)
         && match computed with
            | None => match current with VNum NaN => false | _ => true end
            | Some c => baseGt current c
            end
      then baseExtremum iteratee rest (Some current) v
      else baseExtremum iteratee rest computed res
  end.

Definition maxBy (array : value) (iteratee : value → result value) : result value :=
  match array with
  | VArr l => baseExtremum iteratee l None VUndef
  | _ => Returns VUndef
  end.

End Lodash.

(** ** The state *)

Record State := mkState {
  availableDrives : list (gmap string value);
  selection : gmap string value;
  isFlashing : bool;
  flashResults : value;
  flashState : value;
  settings : gmap string value
}.

Definition DEFAULT_STATE : State := {|
  availableDrives := [];
  selection := ∅;
  isFlashing := false;
  flashResults := VObj ∅;
  flashState := VObj (list_to_map [
    ("percentage", VNum (Num 0));
    ("speed", VNum (Num (-1)))
  ]);
  settings := list_to_map [
    ("unsafeMode", VBool false);
    ("errorReporting", VBool true);
    ("unmountOnSuccess", VBool true);
    ("validateWriteOnSuccess", VBool true);
    ("sleepUpdateCheck", VBool false);
    ("lastUpdateNotify", VNull);
    ("downloadPath", VNull);
    ("downloadSource", VStr "default/boards.json")
  ]
|}.

Definition set_availableDrives (s : State) (l : list (gmap string value)) : State :=
  mkState l (selection s) (isFlashing s) (flashResults s) (flashState s) (settings s).

Definition set_selection (s : State) (sel : gmap string value) : State :=
  mkState (availableDrives s) sel (isFlashing s) (flashResults s) (flashState s) (settings s).

Definition set_isFlashing (s : State) (b : bool) : State :=
  mkState (availableDrives s) (selection s) b (flashResults s) (flashState s) (settings s).

Definition set_flashResults (s : State) (v : value) : State :=
  mkState (availableDrives s) (selection s) (isFlashing s) v (flashState s) (settings s).

Definition set_flashState (s : State) (v : value) : State :=
  mkState (availableDrives s) (selection s) (isFlashing s) (flashResults s) v (settings s).

Definition set_settings (s : State) (o : gmap string value) : State :=
  mkState (availableDrives s) (selection s) (isFlashing s) (flashResults s) (flashState s) o.

(** [state.getIn([ 'selection', k ])] and its form with a default. *)
Definition getSelection (s : State) (k : string) : value :=
  get (selection s) k.

Definition getSelectionOr (s : State) (k : string) (notSet : value) : value :=
  default notSet (selection s !! k).

(** [state.setIn([ 'selection', k ], v)] and [state.deleteIn([ 'selection', k ])]. *)
Definition setSelection (s : State) (k : string) (v : value) : State :=
  set_selection s (<[k := v]> (selection s)).

Definition deleteSelection (s : State) (k : string) : State :=
  set_selection s (delete k (selection s)).

(** What a call of the reducer, or of [_.attempt] around one, hands back: a
    state, or the [Error] object that [_.attempt] caught. *)
Inductive returned :=
| St (s : State)
| ErrObj (e : error).

(** [_.attempt(func)]: the result of [func], or the error it threw. *)
Definition attempt (r : result State) : returned :=
  match r with
  | Returns s => St s
  | Throws e => ErrObj e
  end.

(** The same two methods called on what [_.attempt] returned: an [Error]
    object has neither. *)
Definition attempted_setSelection (r : returned) (k : string) (v : value) : result State :=
  match r with
  | St s => Returns (setSelection s k v)
  | ErrObj _ => Throws (TypeError "_.attempt(...).setIn is not a function")
  end.

Definition attempted_deleteSelection (r : returned) (k : string) : result State :=
  match r with
  | St s => Returns (deleteSelection s k)
  | ErrObj _ => Throws (TypeError "_.attempt(...).deleteIn is not a function")
  end.

(** [state.get('availableDrives').find(drive => drive.get('device') === device)] *)
Definition findDrive (s : State) (device : value) : option (gmap string value) :=
  List.find (λ drive, strict_eq (get drive "device") device) (availableDrives s).

(** ** Actions *)

Inductive kind :=
| SET_AVAILABLE_DRIVES
| SET_FLASH_STATE
| RESET_FLASH_STATE
| SET_FLASHING_FLAG
| UNSET_FLASHING_FLAG
| SELECT_OS
| SELECT_DRIVE
| SELECT_IMAGE
| REMOVE_OS
| REMOVE_DRIVE
| REMOVE_IMAGE
| SET_SETTING.

Definition kinds : list kind :=
  [ SET_AVAILABLE_DRIVES; SET_FLASH_STATE; RESET_FLASH_STATE; SET_FLASHING_FLAG;
    UNSET_FLASHING_FLAG; SELECT_OS; SELECT_DRIVE; SELECT_IMAGE; REMOVE_OS;
    REMOVE_DRIVE; REMOVE_IMAGE; SET_SETTING ].

Definition message (k : kind) : string :=
  match k with
  | SET_AVAILABLE_DRIVES => "SET_AVAILABLE_DRIVES"
  | SET_FLASH_STATE => "SET_FLASH_STATE"
  | RESET_FLASH_STATE => "RESET_FLASH_STATE"
  | SET_FLASHING_FLAG => "SET_FLASHING_FLAG"
  | UNSET_FLASHING_FLAG => "UNSET_FLASHING_FLAG"
  | SELECT_OS => "SELECT_OS"
  | SELECT_DRIVE => "SELECT_DRIVE"
  | SELECT_IMAGE => "SELECT_IMAGE"
  | REMOVE_OS => "REMOVE_OS"
  | REMOVE_DRIVE => "REMOVE_DRIVE"
  | REMOVE_IMAGE => "REMOVE_IMAGE"
  | SET_SETTING => "SET_SETTING"
  end.

(** The values of the object [ACTIONS]: each message is mapped to itself. *)
Definition ACTIONS : list string := message <$> kinds.

Record action := mkAction {
  type : value;
  data : value
}.

(** The action [{ type: ACTIONS.k, data: d }]. *)
Definition act (k : kind) (d : value) : action :=
  mkAction (VStr (message k)) d.

(** Which [case] label of the [switch] is strictly equal to [action.type]. *)
Definition kind_of (t : value) : option kind :=
  List.find (λ k, strict_eq t (VStr (message k))) kinds.

(** ** The drive constraints *)

(** The predicates of [constraints] that the reducer calls, on plain
    JavaScript data.  [isDriveValid] is called with a drive, an image and
    [!_.isEmpty(os)] in [SET_AVAILABLE_DRIVES], and with a drive and an image
    only in [SELECT_IMAGE]: its third argument is then [undefined]. *)
Record Constraints := {
  isDriveValid : value → value → value → bool;
  isDriveSizeRecommended : value → value → bool;
  isSystemDrive : value → bool;
  isDriveLargeEnough : value → value → bool
}.

(** ** The reducer *)

Section Reducer.

Variable constraints : Constraints.
Variable baseGt : value → value → bool.

Definition getRecommendedImage (drive os : value) : result value :=
  images ← prop os "images";
  maxBy baseGt images (λ image,
    if isDriveSizeRecommended constraints drive image
    then prop image "recommendedDriveSize"
    else Returns VUndef).

Definition case_REMOVE_IMAGE (state : State) : result State :=
  Returns (deleteSelection state "image").

Definition case_REMOVE_DRIVE (state : State) : result State :=
  attempted_deleteSelection
    (attempt (if truthy (getSelection state "os")
              then case_REMOVE_IMAGE state
              else Returns state))
    "drive".

Definition case_REMOVE_OS (state : State) : result State :=
  attempted_deleteSelection
    (attempt (let image := getSelection state "image" in
              if truthy image
              then case_REMOVE_IMAGE state
              else Returns state))
    "os".

(** [if (action.data.k && !_.isString(action.data.k)) throw ...] *)
Definition optionalString (data : value) (k msg : string) : result unit :=
  v ← prop data k;
  if truthy v && negb (isString v) then Throws (ErrorOf msg v) else Returns ().

Definition case_SELECT_IMAGE (state : State) (data : value) : result State :=
  path ← prop data "path";
  if negb (truthy path) then Throws (Error "Missing image path") else
  if negb (isString path) then Throws (ErrorOf "Invalid image path: " path) else
  size ← prop data "size";
  if negb (truthy size) then Throws (Error "Missing image size") else
  if negb (isNumber size) then Throws (ErrorOf "Invalid image size: " size) else
  optionalString data "url" "Invalid image url: ";;
  optionalString data "name" "Invalid image name: ";;
  optionalString data "logo" "Invalid image logo: ";;
  optionalString data "version" "Invalid image version: ";;
  optionalString data "downloadChecksum" "Invalid image download checksum: ";;
  optionalString data "downloadChecksumType" "Invalid image download checksum: ";;
  let selectedDevice := getSelection state "drive" in
  let selectedDrive := findDrive state selectedDevice in
  let os := getSelection state "os" in
  if negb (truthy os) then
    attempted_setSelection
      (attempt match selectedDrive with
               | Some selectedDrive =>
                   if negb (isDriveValid constraints (VObj selectedDrive) data VUndef
                            && isDriveSizeRecommended constraints (VObj selectedDrive) data)
                   then case_REMOVE_DRIVE state
                   else Returns state
               | None => Returns state
               end)
      "image" data
  else Returns (setSelection state "image" data).

(** The payload of the [SELECT_IMAGE] that [SELECT_DRIVE] cascades to. *)
Definition recommendedImagePayload (image os : value) : result value :=
  url ← prop image "url";
  recommendedDriveSize ← prop image "recommendedDriveSize";
  logo ← prop os "logo";
  version ← prop os "version";
  checksum ← prop image "checksum";
  checksumType ← prop image "checksumType";
  Returns (VObj (list_to_map [
    ("path", url);
    ("size", recommendedDriveSize);
    ("logo", logo);
    ("version", version);
    ("downloadChecksum", checksum);
    ("downloadChecksumType", if truthy checksumType then checksumType else VStr "md5")
  ])).

Definition case_SELECT_DRIVE (state : State) (data : value) : result State :=
  if negb (truthy data) then Throws (Error "Missing drive") else
  if negb (isString data) then Throws (ErrorOf "Invalid drive: " data) else
  match findDrive state data with
  | None => Throws (ErrorOf "The drive is not available: " data)
  | Some selectedDrive =>
      if truthy (get selectedDrive "protected")
      then Throws (Error "The drive is write-protected") else
      os ← toJS (getSelectionOr state "os" (VObj ∅));
      if isEmpty os then
        let image := getSelection state "image" in
        if truthy image then
          image' ← toJS image;
          if negb (isDriveLargeEnough constraints (VObj selectedDrive) image')
          then Throws (Error "The drive is not large enough")
          else Returns (setSelection state "drive" data)
        else Returns (setSelection state "drive" data)
      else
        let image := get selectedDrive "recommendedImage" in
        if truthy image then
          attempted_setSelection
            (attempt (payload ← recommendedImagePayload image os;
                      case_SELECT_IMAGE state payload))
            "drive" data
        else Returns (setSelection state "drive" data)
  end.

(** The body of the [_.forEach] over the incoming drives: the drive with
    its [recommendedImage] assigned when there is one. *)
Definition annotate (os : value) (drive : gmap string value) : result (gmap string value) :=
  recommended ← getRecommendedImage (VObj drive) os;
  Returns (if truthy recommended
           then <["recommendedImage" := recommended]> drive
           else drive).

(** The three checks under which a single incoming drive is selected. *)
Definition autoSelectable (drive : gmap string value) (image os : value) : bool :=
  isDriveValid constraints (VObj drive) image (VBool (negb (isEmpty os)))
  && isDriveSizeRecommended constraints (VObj drive) image
  && negb (isSystemDrive constraints (VObj drive)).

Definition case_SET_AVAILABLE_DRIVES (state : State) (data : value) : result State :=
  if negb (truthy data) then Throws (Error "Missing drives") else
  match plainObjects data with
  | None => Throws (ErrorOf "Invalid drives: " data)
  | Some drives =>
      os ← toJS (getSelectionOr state "os" (VObj ∅));
      image ← toJS (getSelectionOr state "image" (VObj ∅));
      drives ← (if truthy os then mapM (annotate os) drives else Returns drives);
      let newState := set_availableDrives state drives in
      let rest :=
        let selectedDevice := getSelection newState "drive" in
        if truthy selectedDevice
           && negb (existsb (λ drive, strict_eq (get drive "device") selectedDevice) drives)
        then case_REMOVE_DRIVE newState
        else Returns newState in
      match drives with
      | [drive] =>
          if autoSelectable drive image os
          then case_SELECT_DRIVE newState (get drive "device")
          else rest
      | _ => rest
      end
  end.

Definition case_SELECT_OS (state : State) (data : value) : result returned :=
  if negb (truthy data) then Throws (Error "Missing selected operating system") else
  let selectedDevice := getSelection state "drive" in
  let selectedDrive := findDrive state selectedDevice in
  let newState := setSelection state "os" data in
  newState ← case_SET_AVAILABLE_DRIVES newState (VArr (VObj <$> availableDrives state));
  match selectedDrive with
  | Some selectedDrive =>
      Returns (attempt (
        recommendedImageForSelectedDrive ← getRecommendedImage (VObj selectedDrive) data;
        if negb (truthy recommendedImageForSelectedDrive)
        then case_REMOVE_DRIVE newState
        else case_SELECT_DRIVE newState (get selectedDrive "device")))
  | None => Returns (St newState)
  end.

Definition case_SET_FLASH_STATE (state : State) (data : value) : result State :=
  if negb (isFlashing state)
  then Throws (Error "Can't set the flashing state when not flashing") else
  type ← prop data "type";
  if negb (truthy type) then Throws (Error "Missing state type") else
  if negb (isString type) then Throws (ErrorOf "Invalid state type: " type) else
  percentage ← prop data "percentage";
  if isUndefined percentage || isNull percentage
  then Throws (Error "Missing state percentage") else
  if negb (isNumber percentage)
  then Throws (ErrorOf "Invalid state percentage: " percentage) else
  eta ← prop data "eta";
  if negb (truthy eta) && negb (strict_eq eta (VNum (Num 0)))
  then Throws (Error "Missing state eta") else
  if negb (isNumber eta) then Throws (ErrorOf "Invalid state eta: " eta) else
  speed ← prop data "speed";
  if isUndefined speed || isNull speed then Throws (Error "Missing state speed") else
  Returns (set_flashState state data).

Definition case_RESET_FLASH_STATE (state : State) : result State :=
  Returns (set_flashResults (set_flashState state (flashState DEFAULT_STATE))
                            (flashResults DEFAULT_STATE)).

Definition case_SET_FLASHING_FLAG (state : State) : result State :=
  Returns (set_flashResults (set_isFlashing state true) (flashResults DEFAULT_STATE)).

(** [_.defaults(object, { cancelled: false })]: the object as the later
    property reads see it, and what [Immutable.fromJS] makes of it.  On
    an array the default becomes a named property, which [fromJS] drops; a
    primitive is boxed and the box is lost. *)
Definition defaultsCancelled (object : value) : value * value :=
  match object with
  | VObj o =>
      let o' := if isUndefined (get o "cancelled")
                then <["cancelled" := VBool false]> o else o in
      (VObj o', VObj o')
  | VArr l => (VObj {["cancelled" := VBool false]}, VArr l)
  | _ => (object, object)
  end.

Definition case_UNSET_FLASHING_FLAG (state : State) (data : value) : result State :=
  if negb (truthy data) then Throws (Error "Missing results") else
  let '(data, results) := defaultsCancelled data in
  cancelled ← prop data "cancelled";
  if negb (isBoolean cancelled)
  then Throws (ErrorOf "Invalid results cancelled: " cancelled) else
  sourceChecksum ← prop data "sourceChecksum";
  if truthy cancelled && truthy sourceChecksum
  then Throws (Error "The sourceChecksum value can't exist if the flashing was cancelled") else
  if truthy sourceChecksum && negb (isString sourceChecksum)
  then Throws (ErrorOf "Invalid results sourceChecksum: " sourceChecksum) else
  errorCode ← prop data "errorCode";
  if truthy errorCode && negb (isString errorCode) && negb (isNumber errorCode)
  then Throws (ErrorOf "Invalid results errorCode: " errorCode) else
  Returns (set_flashState
             (set_flashResults (set_isFlashing state false) results)
             (flashState DEFAULT_STATE)).

Definition case_SET_SETTING (state : State) (data : value) : result State :=
  key ← prop data "key";
  value ← prop data "value";
  if negb (truthy key) then Throws (Error "Missing setting key") else
  match key with
  | VStr k =>
      match settings DEFAULT_STATE !! k with
      | None => Throws (ErrorOf "Unsupported setting: " key)
      | Some _ =>
          if isObject value then Throws (ErrorOf "Invalid setting value: " value) else
          Returns (set_settings state (<[k := value]> (settings state)))
      end
  | _ => Throws (ErrorOf "Invalid setting key: " key)
  end.

(** A [case] that returns a state or throws. *)
Definition returns (r : result State) : result returned :=
  s ← r; Returns (St s).

Definition storeReducer (state : option State) (action : action) : result returned :=
  let state := default DEFAULT_STATE state in
  match kind_of (type action) with
  | Some SELECT_OS => case_SELECT_OS state (data action)
  | Some SET_AVAILABLE_DRIVES => returns (case_SET_AVAILABLE_DRIVES state (data action))
  | Some SET_FLASH_STATE => returns (case_SET_FLASH_STATE state (data action))
  | Some RESET_FLASH_STATE => returns (case_RESET_FLASH_STATE state)
  | Some SET_FLASHING_FLAG => returns (case_SET_FLASHING_FLAG state)
  | Some UNSET_FLASHING_FLAG => returns (case_UNSET_FLASHING_FLAG state (data action))
  | Some SELECT_DRIVE => returns (case_SELECT_DRIVE state (data action))
  | Some SELECT_IMAGE => returns (case_SELECT_IMAGE state (data action))
  | Some REMOVE_OS => returns (case_REMOVE_OS state)
  | Some REMOVE_DRIVE => returns (case_REMOVE_DRIVE state)
  | Some REMOVE_IMAGE => returns (case_REMOVE_IMAGE state)
  | Some SET_SETTING => returns (case_SET_SETTING state (data action))
  | None => Returns (St state)
  end.

(** redux's [dispatch]: an action without a type is refused (the message
    is abridged); otherwise the store takes what the reducer returns, and
    when the reducer throws, the error reaches the caller and the current
    state stays. *)
Definition dispatch (currentState : State) (action : action) : returned * option error :=
  if isUndefined (type action)
  then (St currentState, Some (Error "Actions may not have an undefined type property"))
  else
    match storeReducer (Some currentState) action with
    | Returns r => (r, None)
    | Throws e => (St currentState, Some e)
    end.

End Reducer.

(** ** A concrete policy and comparison, to run the reducer on examples *)

(** A number property, [0] when it is missing or not a number. *)
Definition numberOr0 (v : result value) : Z :=
  match v with
  | Returns (VNum (Num z)) => z
  | _ => 0%Z
  end.

(** Whether a property is set to a truthy value. *)
Definition truthyProp (v : value) (k : string) : bool :=
  match prop v k with
  | Returns x => truthy x
  | Throws _ => false
  end.

(** Modelled from the spec: the drive-constraints module
    ([../../shared/drive-constraints]) is missing from the sources.  Following
    §4.3 and the scenarios of §8 of the specification, a drive is large
    enough for an image when its [size] is at least the image's [size],
    size-recommended when its [size] is at least the image's
    [recommendedDriveSize], a system drive when its [system] flag is set, and
    valid when it is not write-protected and is large enough. *)
Definition sizePolicy : Constraints := {|
  isDriveValid drive image _ :=
    negb (truthyProp drive "protected")
    && (numberOr0 (prop image "size") <=? numberOr0 (prop drive "size"))%Z;
  isDriveSizeRecommended drive image :=
    (numberOr0 (prop image "recommendedDriveSize") <=? numberOr0 (prop drive "size"))%Z;
  isSystemDrive drive := truthyProp drive "system";
  isDriveLargeEnough drive image :=
    (numberOr0 (prop image "size") <=? numberOr0 (prop drive "size"))%Z
|}.

(** [>] on two numbers; [false] elsewhere, which is all the examples need. *)
Definition numberGt (a b : value) : bool :=
  match a, b with
  | VNum (Num x), VNum (Num y) => (y <? x)%Z
  | _, _ => false
  end.

(** ** Example data *)

(** An object literal. *)
Definition object (l : list (string * value)) : gmap string value := list_to_map l.

Definition sda : gmap string value :=
  object [("device", VStr "/dev/sda"); ("size", VNum (Num 16000000000))].

Definition sdb : gmap string value :=
  object [("device", VStr "/dev/sdb"); ("size", VNum (Num 32000000000))].

Definition sdc : gmap string value :=
  object [("device", VStr "/dev/sdc"); ("size", VNum (Num 64000000000))].

(** [/dev/sda] again, now write-protected. *)
Definition sda_protected : gmap string value :=
  object [("device", VStr "/dev/sda"); ("size", VNum (Num 16000000000));
          ("protected", VBool true)].

Definition image_8G : value :=
  VObj (object [("url", VStr "http://example.org/os-8G.img.xz");
                ("size", VNum (Num 4000000000));
                ("recommendedDriveSize", VNum (Num 8000000000));
                ("checksum", VStr "0123abcd")]).

(** An operating system of the catalogue with one image. *)
Definition os_8G : value :=
  VObj (object [("name", VStr "Debian"); ("logo", VStr "debian.svg");
                ("version", VStr "9.1"); ("images", VArr [image_8G])]).

(** An image entry that gives no [url]. *)
Definition image_without_url : value :=
  VObj (object [("recommendedDriveSize", VNum (Num 8000000000))]).

Definition os_without_url : value :=
  VObj (object [("name", VStr "Debian"); ("images", VArr [image_without_url])]).

(** The two drives as [SET_AVAILABLE_DRIVES] annotates them once [os_8G],
    respectively [os_without_url], is selected. *)
Definition sda_8G : gmap string value := <["recommendedImage" := image_8G]> sda.
Definition sdb_8G : gmap string value := <["recommendedImage" := image_8G]> sdb.

Definition sda_without_url : gmap string value :=
  <["recommendedImage" := image_without_url]> sda.
Definition sdb_without_url : gmap string value :=
  <["recommendedImage" := image_without_url]> sdb.

(** [os_8G] selected, both drives attached, none selected. *)
Definition state_os_8G : State :=
  set_availableDrives (setSelection DEFAULT_STATE "os" os_8G) [sda_8G; sdb_8G].

(** The same with [os_without_url]. *)
Definition state_os_without_url : State :=
  set_availableDrives (setSelection DEFAULT_STATE "os" os_without_url)
                      [sda_without_url; sdb_without_url].

(** The image that selecting a drive annotated with [image_8G] selects. *)
Definition selected_8G : gmap string value :=
  object [("path", VStr "http://example.org/os-8G.img.xz");
          ("size", VNum (Num 8000000000));
          ("logo", VStr "debian.svg");
          ("version", VStr "9.1");
          ("downloadChecksum", VStr "0123abcd");
          ("downloadChecksumType", VStr "md5")].

(** [state_os_8G] after [/dev/sda] is selected. *)
Definition state_os_8G_sda : State :=
  setSelection (setSelection state_os_8G "image" (VObj selected_8G))
               "drive" (VStr "/dev/sda").

(** Both drives attached and [/dev/sda] selected, no operating system, no
    image. *)
Definition state_sda_selected : State :=
  setSelection (set_availableDrives DEFAULT_STATE [sda; sdb]) "drive" (VStr "/dev/sda").

(** [/dev/sda] still selected after it came back write-protected. *)
Definition state_sda_protected : State :=
  setSelection (set_availableDrives DEFAULT_STATE [sda_protected; sdb])
               "drive" (VStr "/dev/sda").

(** A flash in progress. *)
Definition state_flashing : State := set_isFlashing DEFAULT_STATE true.

(** Further images, and operating systems that offer them. *)
Definition image_4G : value :=
  VObj (object [("url", VStr "http://example.org/os-4G.img.xz");
                ("recommendedDriveSize", VNum (Num 4000000000))]).

Definition image_8G_desktop : value :=
  VObj (object [("url", VStr "http://example.org/os-8G-desktop.img.xz");
                ("recommendedDriveSize", VNum (Num 8000000000))]).

Definition image_64G : value :=
  VObj (object [("url", VStr "http://example.org/os-64G.img.xz");
                ("recommendedDriveSize", VNum (Num 64000000000))]).

Definition os_four_images : value :=
  VObj (object [("name", VStr "Debian");
                ("images", VArr [image_4G; image_8G; image_64G; image_8G_desktop])]).

Definition os_64G : value :=
  VObj (object [("name", VStr "Debian"); ("images", VArr [image_64G])]).

(** A local image file. *)
Definition image_file : value :=
  VObj (object [("path", VStr "/home/user/os.img"); ("size", VNum (Num 2000000000))]).

(** [state_sda_selected] after [os_64G] is selected. *)
Definition state_os_64G : State :=
  setSelection (set_availableDrives DEFAULT_STATE [sda; sdb]) "os" os_64G.

(** The default state with [unsafeMode] switched on. *)
Definition state_unsafe : State :=
  set_settings DEFAULT_STATE (<["unsafeMode" := VBool true]> (settings DEFAULT_STATE)).

(** Persisted settings that hold a key the application does not know. *)
Definition persisted_theme : gmap string value :=
  object [("unsafeMode", VBool true); ("theme", VStr "dark")].

(** Both drives attached, nothing selected. *)
Definition state_two_drives : State := set_availableDrives DEFAULT_STATE [sda; sdb].

(** Both drives attached and a local image of 20 GB selected. *)
Definition image_20G : value :=
  VObj (object [("path", VStr "/home/user/big.img"); ("size", VNum (Num 20000000000))]).

Definition state_image_20G : State := setSelection state_two_drives "image" image_20G.

(** The outcome of the last of a sequence of dispatches, each earlier one
    having returned a state; the sequence stops at the first dispatch that
    does not. *)
Fixpoint dispatches (constraints : Constraints) (baseGt : value → value → bool)
    (s : State) (l : list action) : result returned :=
  match l with
  | [] => Returns (St s)
  | a :: l =>
      match storeReducer constraints baseGt (Some s) a with
      | Returns (St s') => dispatches constraints baseGt s' l
      | r => r
      end
  end.

(** ** Notions used by the specification *)

(** The property [k] of a value that is neither [undefined] nor [null]. *)
Definition field (v : value) (k : string) : value :=
  match v with
  | VObj o => get o k
  | _ => VUndef
  end.

(** The keys of [DEFAULT_STATE.get('settings')]: the supported settings. *)
Definition settingKeys : list string :=
  [ "unsafeMode"; "errorReporting"; "unmountOnSuccess"; "validateWriteOnSuccess";
    "sleepUpdateCheck"; "lastUpdateNotify"; "downloadPath"; "downloadSource" ].

(** A results object with [cancelled] defaulted to [false] when it is
    omitted. *)
Definition withCancelled (o : gmap string value) : gmap string value :=
  if isUndefined (get o "cancelled") then <["cancelled" := VBool false]> o else o.

(** The fields outside [selection] and [availableDrives] are the same. *)
Definition same_rest (s s' : State) : Prop :=
  isFlashing s' = isFlashing s ∧ flashResults s' = flashResults s
  ∧ flashState s' = flashState s ∧ settings s' = settings s.

(** [selection.drive], when it is set, is the device of an available
    drive. *)
Definition driveResolves (s : State) : Prop :=
  ∀ d, selection s !! "drive" = Some d →
       ∃ drive, drive ∈ availableDrives s ∧ drive !! "device" = Some d.

(** The states of the store: the default state, with the persisted settings
    merged in at start-up if there are any, and every state that a dispatch
    returns from there. *)
Inductive reachable (constraints : Constraints) (baseGt : value → value → bool) :
    State → Prop :=
| reachable_default :
    reachable constraints baseGt DEFAULT_STATE
| reachable_persisted (subset : gmap string value) :
    reachable constraints baseGt (set_settings DEFAULT_STATE subset)
| reachable_dispatch (s : State) (a : action) (s' : State) :
    reachable constraints baseGt s →
    storeReducer constraints baseGt (Some s) a = Returns (St s') →
    reachable constraints baseGt s'.

(** The invariant behind [driveResolves]: the selected drive is a non-empty
    device name carried by an available drive, and the selected operating
    system and image are collections. *)
Definition driveNamed (s : State) : Prop :=
  ∀ d, selection s !! "drive" = Some d → ∃ dev, d = VStr dev ∧ dev ≠ "".

Definition driveOk (s : State) : Prop :=
  ∀ d, selection s !! "drive" = Some d →
       ∃ dev, d = VStr dev ∧ dev ≠ ""
              ∧ ∃ drive, drive ∈ availableDrives s ∧ drive !! "device" = Some (VStr dev).

Definition collectionsOk (s : State) : Prop :=
  (∀ v, selection s !! "os" = Some v → isObject v = true)
  ∧ (∀ v, selection s !! "image" = Some v → isObject v = true).

Definition wf (s : State) : Prop := driveOk s ∧ collectionsOk s.

(** The incoming list is a single drive that passes the three checks, so
    that [SET_AVAILABLE_DRIVES] selects it. *)
Definition autoSelects (constraints : Constraints) (baseGt : value → value → bool)
    (s : State) (drives : list (gmap string value)) : Prop :=
  ∃ drive drive',
    drives = [drive]
    ∧ annotate constraints baseGt (getSelectionOr s "os" (VObj ∅)) drive = Returns drive'
    ∧ autoSelectable constraints drive'
        (getSelectionOr s "image" (VObj ∅)) (getSelectionOr s "os" (VObj ∅)) = true.

(** No entry of [os.images] is [undefined] or [null]. *)
Definition imagesDefined (os : value) : Prop :=
  ∀ l, field os "images" = VArr l → Forall (λ image, image ≠ VUndef ∧ image ≠ VNull) l.

(** ** The persistence adapter *)

(** [slicer(PERSISTED_PATH)]: the part of a state that is persisted,
    [state.get('settings')]. *)
Definition slicer (state : State) : gmap string value := settings state.

(** [merge(state, subset)], where [subset] is what [deserialize] made of the
    stored text: [null] ([None]) when nothing is stored yet, else the stored
    settings.  Nothing is merged in the first case and the function returns
    [undefined] ([None]); else the settings are replaced as they come. *)
Definition merge (state : State) (subset : option (gmap string value)) : option State :=
  match subset with
  | None => None
  | Some subset => Some (set_settings state subset)
  end.

(** ** Notions used by the further properties *)

(** One dispatch that returns a state. *)
Definition step (constraints : Constraints) (baseGt : value → value → bool)
    (s s' : State) : Prop :=
  ∃ a, storeReducer constraints baseGt (Some s) a = Returns (St s').

(** An optional field of an image: falsy, or a string. *)
Definition optionalStringOk (data : value) (k : string) : bool :=
  negb (truthy (field data k)) || isString (field data k).

(** The images that [SELECT_IMAGE] accepts: objects with a non-empty string
    [path], a number [size] other than [0] and [NaN], and optional fields
    that are strings when they are truthy. *)
Definition validImage (data : value) : bool :=
  isObject data
  && truthy (field data "path") && isString (field data "path")
  && truthy (field data "size") && isNumber (field data "size")
  && optionalStringOk data "url" && optionalStringOk data "name"
  && optionalStringOk data "logo" && optionalStringOk data "version"
  && optionalStringOk data "downloadChecksum"
  && optionalStringOk data "downloadChecksumType".

(** Whether the selected drive, if it is an available one, is valid and
    size-recommended for the image [data]. *)
Definition driveStays (constraints : Constraints) (s : State) (data : value) : bool :=
  match findDrive s (getSelection s "drive") with
  | Some selectedDrive =>
      isDriveValid constraints (VObj selectedDrive) data VUndef
      && isDriveSizeRecommended constraints (VObj selectedDrive) data
  | None => true
  end.

(** The settings have exactly the default keys, and no value is an object. *)
Definition settingsOk (s : State) : Prop :=
  dom (settings s) = list_to_set settingKeys
  ∧ ∀ k v, settings s !! k = Some v → isObject v = false.

(** Progress is at its default outside a flash, and there are no results
    during one. *)
Definition flashOk (s : State) : Prop :=
  (isFlashing s = false → flashState s = flashState DEFAULT_STATE)
  ∧ (isFlashing s = true → flashResults s = flashResults DEFAULT_STATE).

(** What one dispatch may do to [selection.image]: keep it, clear it, or
    set it to an image that [SELECT_IMAGE] accepts. *)
Definition imageStep (s s' : State) : Prop :=
  selection s' !! "image" = selection s !! "image"
  ∨ selection s' !! "image" = None
  ∨ ∃ data, selection s' !! "image" = Some data ∧ validImage data = true.

(** The annotation of one incoming drive: every property but
    [recommendedImage] is as it came, and [recommendedImage] is as it came
    or is an entry of [os.images] that is size-recommended for the drive. *)
Definition annotated (constraints : Constraints) (os : value)
    (drive drive' : gmap string value) : Prop :=
  (∀ k, k ≠ "recommendedImage" → drive' !! k = drive !! k)
  ∧ (drive' !! "recommendedImage" = drive !! "recommendedImage"
     ∨ ∃ image l,
         drive' !! "recommendedImage" = Some image
         ∧ field os "images" = VArr l ∧ image ∈ l
         ∧ isDriveSizeRecommended constraints (VObj drive) image = true).

(** ** Basic facts *)

Lemma bind_Returns {A B} (m : result A) (f : A → result B) (b : B) :
  m ≫= f = Returns b ↔ ∃ a, m = Returns a ∧ f a = Returns b.
Proof.
  destruct m as [a|e]; simpl; split.
  - intros H. by exists a.
  - by intros (a' & [= <-] & H).
  - discriminate.
  - by intros (a' & ? & _).
Qed.

Lemma returns_St (r : result State) (x : returned) :
  returns r = Returns x ↔ ∃ s, r = Returns s ∧ x = St s.
Proof.
  unfold returns. rewrite bind_Returns. split.
  - intros (s & -> & [= <-]). by exists s.
  - intros (s & -> & ->). by exists s.
Qed.

Lemma strict_eq_VStr (t : value) (m : string) :
  strict_eq t (VStr m) = true ↔ t = VStr m.
Proof.
  destruct t as [| |b|[|z]|s|l|o]; simpl; try (split; [discriminate|discriminate]).
  rewrite String.eqb_eq. split; [by intros ->|by intros [= ->]].
Qed.

Lemma truthy_VStr (s : string) : truthy (VStr s) = true ↔ s ≠ "".
Proof.
  simpl. rewrite negb_true_iff. split.
  - intros H ->. by rewrite String.eqb_refl in H.
  - intros H. by apply String.eqb_neq.
Qed.

Lemma kind_of_message (k : kind) : kind_of (VStr (message k)) = Some k.
Proof. by destruct k. Qed.

Lemma kind_of_Some (t : value) (k : kind) :
  kind_of t = Some k → t = VStr (message k).
Proof.
  intros H. apply find_some in H as [_ H]. by apply strict_eq_VStr.
Qed.

Lemma kind_of_None (t : value) :
  t ∉ VStr <$> ACTIONS → kind_of t = None.
Proof.
  intros H. destruct (kind_of t) as [k|] eqn:Hk; [|done].
  apply kind_of_Some in Hk as ->. destruct H.
  unfold ACTIONS. rewrite <- list_fmap_compose.
  apply list_elem_of_fmap. exists k. split; [done|].
  destruct k; unfold kinds; set_solver.
Qed.

(** Decomposition of a run that returned: one step for each bind, test or
    match at the head of the hypothesis. *)
Ltac returned H :=
  repeat first
    [ discriminate H
    | match type of H with
      | Returns _ = Returns _ => injection H as H
      | returns _ = Returns _ => apply returns_St in H as (? & H & ?)
      | _ ≫= _ = Returns _ => apply bind_Returns in H as (? & ? & H)
      | (if ?b then _ else _) = Returns _ => destruct b eqn:?
      | match ?x with _ => _ end = Returns _ => destruct x eqn:?
      | (let '(_, _) := ?x in _) = Returns _ => destruct x eqn:?
      end ].

(** ** What each case leaves alone *)

Section Frames.

Variable constraints : Constraints.
Variable baseGt : value → value → bool.

Lemma attempted_deleteSelection_Returns (r : result State) (k : string) (s' : State) :
  attempted_deleteSelection (attempt r) k = Returns s' ↔
  ∃ s, r = Returns s ∧ s' = deleteSelection s k.
Proof.
  destruct r as [s|e]; simpl; split.
  - intros [= <-]. by exists s.
  - by intros (? & [= <-] & ->).
  - discriminate.
  - by intros (? & ? & _).
Qed.

Lemma attempted_setSelection_Returns (r : result State) (k : string) (v : value) (s' : State) :
  attempted_setSelection (attempt r) k v = Returns s' ↔
  ∃ s, r = Returns s ∧ s' = setSelection s k v.
Proof.
  destruct r as [s|e]; simpl; split.
  - intros [= <-]. by exists s.
  - by intros (? & [= <-] & ->).
  - discriminate.
  - by intros (? & ? & _).
Qed.

Lemma case_REMOVE_DRIVE_Returns (s : State) :
  case_REMOVE_DRIVE s =
    Returns (deleteSelection
               (if truthy (getSelection s "os") then deleteSelection s "image" else s)
               "drive").
Proof. unfold case_REMOVE_DRIVE, case_REMOVE_IMAGE. by destruct (truthy _). Qed.

Lemma case_REMOVE_OS_Returns (s : State) :
  case_REMOVE_OS s =
    Returns (deleteSelection
               (if truthy (getSelection s "image") then deleteSelection s "image" else s)
               "os").
Proof. unfold case_REMOVE_OS, case_REMOVE_IMAGE. by destruct (truthy _). Qed.

Lemma same_rest_trans s1 s2 s3 : same_rest s1 s2 → same_rest s2 s3 → same_rest s1 s3.
Proof. unfold same_rest. intros (?&?&?&?) (?&?&?&?). repeat split; congruence. Qed.

Lemma case_REMOVE_DRIVE_frame s s' :
  case_REMOVE_DRIVE s = Returns s' →
  availableDrives s' = availableDrives s ∧ same_rest s s'.
Proof.
  rewrite case_REMOVE_DRIVE_Returns. intros [= <-].
  by destruct (truthy _).
Qed.

Lemma case_SELECT_IMAGE_frame s data s' :
  case_SELECT_IMAGE constraints s data = Returns s' →
  availableDrives s' = availableDrives s ∧ same_rest s s'.
Proof.
  unfold case_SELECT_IMAGE. intros H. returned H.
  - apply attempted_setSelection_Returns in H as (s0 & H & ->).
    returned H; subst; try done.
    by apply case_REMOVE_DRIVE_frame in H.
  - by subst.
Qed.

Lemma case_SELECT_DRIVE_frame s data s' :
  case_SELECT_DRIVE constraints s data = Returns s' →
  availableDrives s' = availableDrives s ∧ same_rest s s'.
Proof.
  unfold case_SELECT_DRIVE. intros H. returned H; subst; try done.
  apply attempted_setSelection_Returns in H as (s0 & H & ->).
  returned H. by apply case_SELECT_IMAGE_frame in H.
Qed.

Lemma case_SET_AVAILABLE_DRIVES_frame s data s' :
  case_SET_AVAILABLE_DRIVES constraints baseGt s data = Returns s' →
  same_rest s s'.
Proof.
  unfold case_SET_AVAILABLE_DRIVES. intros H. returned H; subst; try done;
    first [ by apply case_REMOVE_DRIVE_frame in H as [_ H]
          | by apply case_SELECT_DRIVE_frame in H as [_ H] ].
Qed.

Lemma case_SELECT_OS_frame s data s' :
  case_SELECT_OS constraints baseGt s data = Returns (St s') →
  same_rest s s'.
Proof.
  unfold case_SELECT_OS. intros H. returned H.
  - destruct (getRecommendedImage _ _ _ _) as [rec|e]; simpl in H; [|done].
    apply case_SET_AVAILABLE_DRIVES_frame in H0.
    destruct (truthy rec); simpl in H.
    + destruct (case_SELECT_DRIVE _ _ _) eqn:Hs; simplify_eq/=.
      apply case_SELECT_DRIVE_frame in Hs as [_ Hs].
      eapply same_rest_trans; [|done]. done.
    + rewrite case_REMOVE_DRIVE_Returns in H. simplify_eq/=.
      eapply same_rest_trans; [done|].
      by destruct (truthy (getSelection x "os")).
  - apply case_SET_AVAILABLE_DRIVES_frame in H0. by subst.
Qed.

End Frames.

(** ** The action catalogue and the frame of the reducer *)

Section Catalogue.

Variable constraints : Constraints.
Variable baseGt : value → value → bool.

(** C8.  An action whose type is none of the twelve messages of [ACTIONS]
    falls to the [default] case: the reducer returns the state it was
    given and does not throw. *)
Theorem unknown_action_is_noop (state : State) (a : action) :
  type a ∉ VStr <$> ACTIONS →
  storeReducer constraints baseGt (Some state) a = Returns (St state).
Proof.
  intros H. unfold storeReducer. by rewrite (kind_of_None _ H).
Qed.

(** C9.  For an action of any catalogue kind other than [SET_SETTING], the
    state the reducer returns has the settings of the state it was given. *)
Theorem settings_change_only_by_SET_SETTING
    (state : State) (a : action) (k : kind) (s' : State) :
  type a = VStr (message k) →
  k ≠ SET_SETTING →
  storeReducer constraints baseGt (Some state) a = Returns (St s') →
  settings s' = settings state.
Proof.
  intros Ht Hk. unfold storeReducer.
  rewrite Ht, kind_of_message. cbn [default].
  destruct k; try done; intros H.
  - returned H. simplify_eq.
    by apply case_SET_AVAILABLE_DRIVES_frame in H as (_ & _ & _ & ?).
  - unfold case_SET_FLASH_STATE in H. returned H. by simplify_eq.
  - unfold case_RESET_FLASH_STATE in H. returned H. by simplify_eq.
  - unfold case_SET_FLASHING_FLAG in H. returned H. by simplify_eq.
  - unfold case_UNSET_FLASHING_FLAG in H. returned H. by simplify_eq.
  - by apply case_SELECT_OS_frame in H as (_ & _ & _ & ?).
  - returned H. simplify_eq.
    by apply case_SELECT_DRIVE_frame in H as (_ & _ & _ & _ & ?).
  - returned H. simplify_eq.
    by apply case_SELECT_IMAGE_frame in H as (_ & _ & _ & _ & ?).
  - rewrite case_REMOVE_OS_Returns in H. returned H. simplify_eq.
    by destruct (truthy _).
  - rewrite case_REMOVE_DRIVE_Returns in H. returned H. simplify_eq.
    by destruct (truthy _).
  - unfold case_REMOVE_IMAGE in H. returned H. by simplify_eq.
Qed.

End Catalogue.

(** ** Validation of the payloads *)

Section Validation.

Variable constraints : Constraints.
Variable baseGt : value → value → bool.

Lemma storeReducer_act (state : State) (k : kind) (d : value) :
  storeReducer constraints baseGt (Some state) (act k d) =
  match k with
  | SELECT_OS => case_SELECT_OS constraints baseGt state d
  | SET_AVAILABLE_DRIVES => returns (case_SET_AVAILABLE_DRIVES constraints baseGt state d)
  | SET_FLASH_STATE => returns (case_SET_FLASH_STATE state d)
  | RESET_FLASH_STATE => returns (case_RESET_FLASH_STATE state)
  | SET_FLASHING_FLAG => returns (case_SET_FLASHING_FLAG state)
  | UNSET_FLASHING_FLAG => returns (case_UNSET_FLASHING_FLAG state d)
  | SELECT_DRIVE => returns (case_SELECT_DRIVE constraints state d)
  | SELECT_IMAGE => returns (case_SELECT_IMAGE constraints state d)
  | REMOVE_OS => returns (case_REMOVE_OS state)
  | REMOVE_DRIVE => returns (case_REMOVE_DRIVE state)
  | REMOVE_IMAGE => returns (case_REMOVE_IMAGE state)
  | SET_SETTING => returns (case_SET_SETTING state d)
  end.
Proof.
  unfold storeReducer, act. cbn [type data default].
  rewrite kind_of_message. by destruct k.
Qed.

(** C10.  [SELECT_IMAGE] tests its required fields for truthiness before
    it tests their type: an empty-string path is reported as
    'Missing image path', and, behind a path that passes, a size of [0] is
    reported as 'Missing image size'; a payload whose size is [0] is never
    accepted. *)
Theorem SELECT_IMAGE_falsy_fields_are_missing (state : State) (o : gmap string value) :
  (get o "path" = VStr "" →
   storeReducer constraints baseGt (Some state) (act SELECT_IMAGE (VObj o))
   = Throws (Error "Missing image path"))
  ∧ (get o "size" = VNum (Num 0) →
     (∃ p, get o "path" = VStr p ∧ p ≠ "") →
     storeReducer constraints baseGt (Some state) (act SELECT_IMAGE (VObj o))
     = Throws (Error "Missing image size"))
  ∧ (get o "size" = VNum (Num 0) →
     ∃ e, storeReducer constraints baseGt (Some state) (act SELECT_IMAGE (VObj o))
          = Throws e).
Proof.
  rewrite storeReducer_act. unfold case_SELECT_IMAGE. cbn [prop mbind result_bind].
  split_and!.
  - by intros ->.
  - intros Hsize (p & -> & Hp). apply truthy_VStr in Hp as ->. cbn.
    by rewrite Hsize.
  - intros Hsize. destruct (truthy (get o "path")); cbn; [|by eexists].
    destruct (isString (get o "path")); cbn; [|by eexists].
    rewrite Hsize. cbn. by eexists.
Qed.

Lemma settingKeys_lookup (k : string) :
  k ∈ settingKeys ↔ is_Some (settings DEFAULT_STATE !! k).
Proof.
  rewrite <- elem_of_dom.
  assert (dom (settings DEFAULT_STATE) = list_to_set settingKeys) as ->
    by (vm_compute; reflexivity).
  by rewrite elem_of_list_to_set.
Qed.

(** C7.  Setting a supported key to a value that is not an object and
    reading the key back from the settings yields that value; a payload
    whose key is not a supported key makes the reducer throw, and the
    store keeps the state it had. *)
Theorem SET_SETTING_round_trip (state : State) :
  (∀ (o : gmap string value) (k : string) (v : value),
     k ∈ settingKeys → isObject v = false →
     get o "key" = VStr k → get o "value" = v →
     ∃ s', storeReducer constraints baseGt (Some state) (act SET_SETTING (VObj o))
           = Returns (St s')
           ∧ get (settings s') k = v)
  ∧ (∀ d : value,
       (∀ k, prop d "key" = Returns (VStr k) → k ∉ settingKeys) →
       ∃ e, storeReducer constraints baseGt (Some state) (act SET_SETTING d) = Throws e
            ∧ dispatch constraints baseGt state (act SET_SETTING d) = (St state, Some e)).
Proof.
  split.
  - intros o k v Hk Hv Hkey Hval.
    rewrite storeReducer_act. unfold case_SET_SETTING. cbn [prop mbind result_bind].
    rewrite Hkey, Hval.
    apply settingKeys_lookup in Hk as [x Hx].
    assert (k ≠ "") as Hne by (by intros ->).
    apply truthy_VStr in Hne as ->. cbn [negb].
    rewrite Hx, Hv. cbn [returns mbind result_bind].
    eexists. split; [done|].
    unfold get. cbn [settings set_settings]. by rewrite lookup_insert_eq.
  - intros d Hd.
    assert (∃ e, storeReducer constraints baseGt (Some state) (act SET_SETTING d) = Throws e)
      as [e He].
    { rewrite storeReducer_act. unfold case_SET_SETTING.
      destruct (prop d "key") as [key|e] eqn:Hkey; cbn [mbind result_bind];
        [|by eexists].
      destruct (prop d "value") as [v|e]; cbn [mbind result_bind]; [|by eexists].
      destruct (truthy key); cbn [negb]; [|by eexists].
      destruct key; try by eexists.
      specialize (Hd _ eq_refl).
      destruct (settings DEFAULT_STATE !! s) eqn:Hs; [|by eexists].
      destruct Hd. apply settingKeys_lookup. by eexists. }
    exists e. split; [done|]. unfold dispatch. cbn [act type isUndefined].
    by rewrite He.
Qed.

(** C6, as amended.  [SET_FLASH_STATE] throws whenever [isFlashing] is
    false.  When [isFlashing] is true and the payload has a non-empty
    string type, a number percentage, a number eta other than [NaN] (zero
    allowed) and a speed that is neither [undefined] nor [null], the
    payload becomes the new [flashState]. *)
Theorem SET_FLASH_STATE_contract (state : State) :
  (∀ d : value,
     isFlashing state = false →
     storeReducer constraints baseGt (Some state) (act SET_FLASH_STATE d)
     = Throws (Error "Can't set the flashing state when not flashing"))
  ∧ (∀ (o : gmap string value) (ty : string) (percentage : number) (eta : Z),
       isFlashing state = true →
       get o "type" = VStr ty → ty ≠ "" →
       get o "percentage" = VNum percentage →
       get o "eta" = VNum (Num eta) →
       get o "speed" ≠ VUndef → get o "speed" ≠ VNull →
       storeReducer constraints baseGt (Some state) (act SET_FLASH_STATE (VObj o))
       = Returns (St (set_flashState state (VObj o)))).
Proof.
  split.
  - intros d Hf. rewrite storeReducer_act. unfold case_SET_FLASH_STATE.
    by rewrite Hf.
  - intros o ty percentage eta Hf Hty Hne Hp Heta Hs1 Hs2.
    rewrite storeReducer_act. unfold case_SET_FLASH_STATE.
    rewrite Hf. cbn [prop mbind result_bind negb].
    rewrite Hty, Hp, Heta. apply truthy_VStr in Hne as ->. cbn.
    destruct (eta =? 0)%Z; cbn; by destruct (get o "speed").
Qed.

Lemma get_withCancelled (o : gmap string value) (k : string) :
  k ≠ "cancelled" → get (withCancelled o) k = get o k.
Proof.
  intros Hk. unfold withCancelled. destruct (isUndefined _); [|done].
  unfold get. by rewrite lookup_insert_ne.
Qed.

(** C5, as amended.  [UNSET_FLASHING_FLAG] throws when the data is falsy,
    when [cancelled] (defaulted to [false] when it is omitted) is not a
    boolean, when [cancelled] is true and [sourceChecksum] is truthy, when
    [sourceChecksum] is truthy but not a string, and when [errorCode] is
    truthy but neither a string nor a number.  On any other results object
    it sets [isFlashing] to false, stores the object (with the defaulted
    [cancelled]) as [flashResults] and resets [flashState] to its
    default. *)
Theorem UNSET_FLASHING_FLAG_contract (state : State) :
  (∀ d : value,
     truthy d = false →
     storeReducer constraints baseGt (Some state) (act UNSET_FLASHING_FLAG d)
     = Throws (Error "Missing results"))
  ∧ (∀ o : gmap string value,
       let cancelled := get (withCancelled o) "cancelled" in
       let sourceChecksum := get o "sourceChecksum" in
       let errorCode := get o "errorCode" in
       let run := storeReducer constraints baseGt (Some state)
                    (act UNSET_FLASHING_FLAG (VObj o)) in
       (isBoolean cancelled = false →
        run = Throws (ErrorOf "Invalid results cancelled: " cancelled))
       ∧ (cancelled = VBool true → truthy sourceChecksum = true →
          run = Throws (Error "The sourceChecksum value can't exist if the flashing was cancelled"))
       ∧ (truthy sourceChecksum = true → isString sourceChecksum = false →
          ∃ e, run = Throws e)
       ∧ (truthy errorCode = true → isString errorCode = false →
          isNumber errorCode = false →
          ∃ e, run = Throws e)
       ∧ (isBoolean cancelled = true →
          (cancelled = VBool true → truthy sourceChecksum = false) →
          (truthy sourceChecksum = true → isString sourceChecksum = true) →
          (truthy errorCode = true →
           isString errorCode = true ∨ isNumber errorCode = true) →
          run = Returns (St (set_flashState
                               (set_flashResults (set_isFlashing state false)
                                                 (VObj (withCancelled o)))
                               (flashState DEFAULT_STATE))))).
Proof.
  split.
  - intros d Hd. rewrite storeReducer_act. unfold case_UNSET_FLASHING_FLAG.
    by rewrite Hd.
  - intros o cancelled sourceChecksum errorCode run.
    assert (run = returns (
      if negb (isBoolean cancelled)
      then Throws (ErrorOf "Invalid results cancelled: " cancelled) else
      if truthy cancelled && truthy sourceChecksum
      then Throws (Error "The sourceChecksum value can't exist if the flashing was cancelled") else
      if truthy sourceChecksum && negb (isString sourceChecksum)
      then Throws (ErrorOf "Invalid results sourceChecksum: " sourceChecksum) else
      if truthy errorCode && negb (isString errorCode) && negb (isNumber errorCode)
      then Throws (ErrorOf "Invalid results errorCode: " errorCode) else
      Returns (set_flashState
                 (set_flashResults (set_isFlashing state false) (VObj (withCancelled o)))
                 (flashState DEFAULT_STATE)))) as ->.
    { unfold run. rewrite storeReducer_act. unfold case_UNSET_FLASHING_FLAG.
      cbn [truthy negb defaultsCancelled prop mbind result_bind].
      fold (withCancelled o). fold cancelled.
      rewrite !get_withCancelled by done. done. }
    split_and!.
    + by intros ->.
    + intros Hc ->. by rewrite Hc.
    + intros Hs1 Hs2. rewrite Hs1, Hs2.
      destruct (isBoolean cancelled); cbn; [|by eexists].
      destruct (truthy cancelled); cbn; by eexists.
    + intros He1 He2 He3. rewrite He1, He2, He3.
      destruct (isBoolean cancelled); cbn; [|by eexists].
      destruct (truthy cancelled && truthy sourceChecksum); cbn; [by eexists|].
      destruct (truthy sourceChecksum && negb (isString sourceChecksum)); cbn;
        by eexists.
    + intros Hc Hcs Hs He. rewrite Hc. cbn [negb].
      destruct (truthy sourceChecksum) eqn:Hts.
      * rewrite (Hs eq_refl). cbn [negb andb].
        destruct cancelled as [| |[]| | | |] eqn:Hcv; try done.
        -- by specialize (Hcs eq_refl).
        -- cbn. destruct (truthy errorCode); [|done].
           by destruct (He eq_refl) as [-> | ->]; cbn; rewrite ?andb_false_r.
      * rewrite !andb_false_r. cbn.
        destruct (truthy errorCode); [|done].
        by destruct (He eq_refl) as [-> | ->]; cbn; rewrite ?andb_false_r.
Qed.

End Validation.

(** ** The cascade from [SELECT_DRIVE] to [SELECT_IMAGE] *)

Section Cascade.

Variable constraints : Constraints.
Variable baseGt : value → value → bool.

Lemma prop_field (v : value) (k : string) :
  truthy v = true → prop v k = Returns (field v k).
Proof. by destruct v. Qed.

Lemma prop_field_object (v : value) (k : string) :
  isObject v = true → prop v k = Returns (field v k).
Proof. by destruct v. Qed.

Lemma isObject_truthy (v : value) : isObject v = true → truthy v = true.
Proof. by destruct v. Qed.

Lemma toJS_Returns (v w : value) : toJS v = Returns w ↔ isObject v = true ∧ w = v.
Proof.
  destruct v; simpl; split; try done; try (by intros [? _]);
    by intros [= <-] || by intros [_ ->].
Qed.

Lemma getSelectionOr_Some (s : State) (k : string) (notSet v : value) :
  selection s !! k = Some v → getSelectionOr s k notSet = v.
Proof. unfold getSelectionOr. by intros ->. Qed.

Lemma getSelection_Some (s : State) (k : string) (v : value) :
  selection s !! k = Some v → getSelection s k = v.
Proof. unfold getSelection, get. by intros ->. Qed.

(** The shape of [SELECT_DRIVE] when an operating system is selected and
    the matched drive carries a recommended image. *)
Lemma case_SELECT_DRIVE_cascade (state : State) (dev : string)
    (drive : gmap string value) (os : value) :
  dev ≠ "" →
  findDrive state (VStr dev) = Some drive →
  truthy (get drive "protected") = false →
  selection state !! "os" = Some os →
  isObject os = true →
  isEmpty os = false →
  truthy (get drive "recommendedImage") = true →
  case_SELECT_DRIVE constraints state (VStr dev) =
  attempted_setSelection
    (attempt (payload ← recommendedImagePayload (get drive "recommendedImage") os;
              case_SELECT_IMAGE constraints state payload))
    "drive" (VStr dev).
Proof.
  intros Hdev Hfind Hprot Hos Hobj Hemp Himg. unfold case_SELECT_DRIVE.
  apply truthy_VStr in Hdev as ->. cbn [negb isString].
  rewrite Hfind, Hprot, (getSelectionOr_Some _ _ _ _ Hos).
  assert (toJS os = Returns os) as -> by by apply toJS_Returns.
  cbn [mbind result_bind]. by rewrite Hemp, Himg.
Qed.

(** C4, as amended.  When [SELECT_DRIVE] is dispatched with an operating
    system selected and the matched drive carrying a recommended image, the
    payload of the cascaded [SELECT_IMAGE] has the image's [url] as [path],
    the image's [recommendedDriveSize] as [size], the image's [checksum],
    the image's [checksumType] or 'md5' when that is missing (or otherwise
    falsy), and the logo and version of the selected operating system. *)
Theorem SELECT_DRIVE_cascade_payload (state : State) (dev : string)
    (drive : gmap string value) (os : value) :
  let image := get drive "recommendedImage" in
  dev ≠ "" →
  findDrive state (VStr dev) = Some drive →
  truthy (get drive "protected") = false →
  selection state !! "os" = Some os →
  isObject os = true →
  isEmpty os = false →
  truthy image = true →
  ∃ payload : gmap string value,
    get payload "path" = field image "url"
    ∧ get payload "size" = field image "recommendedDriveSize"
    ∧ get payload "downloadChecksum" = field image "checksum"
    ∧ get payload "downloadChecksumType"
      = (if truthy (field image "checksumType")
         then field image "checksumType" else VStr "md5")
    ∧ get payload "logo" = field os "logo"
    ∧ get payload "version" = field os "version"
    ∧ storeReducer constraints baseGt (Some state) (act SELECT_DRIVE (VStr dev))
      = returns (attempted_setSelection
                   (attempt (case_SELECT_IMAGE constraints state (VObj payload)))
                   "drive" (VStr dev))
    ∧ (∀ s', storeReducer constraints baseGt (Some state) (act SELECT_DRIVE (VStr dev))
             = Returns (St s') →
             selection s' !! "image" = Some (VObj payload)
             ∧ selection s' !! "drive" = Some (VStr dev)).
Proof.
  intros image Hdev Hfind Hprot Hos Hobj Hemp Himg.
  pose proof (case_SELECT_DRIVE_cascade _ _ _ _ Hdev Hfind Hprot Hos Hobj Hemp Himg)
    as Hcascade.
  fold image in Hcascade. unfold recommendedImagePayload in Hcascade.
  rewrite !(prop_field image) in Hcascade by done.
  rewrite !(prop_field_object os) in Hcascade by done.
  cbn [mbind result_bind] in Hcascade.
  eexists. split_and!; [..|rewrite storeReducer_act, Hcascade; reflexivity|].
  1-6: done.
  intros s'. rewrite storeReducer_act, Hcascade. intros H.
  apply returns_St in H as (s0 & H & [= <-]).
  apply attempted_setSelection_Returns in H as (s1 & H & ->).
  unfold case_SELECT_IMAGE in H. returned H.
  - rewrite (getSelection_Some _ _ _ Hos), (isObject_truthy _ Hobj) in *. done.
  - subst. cbn [selection setSelection set_selection].
    by rewrite lookup_insert_eq, lookup_insert_ne, lookup_insert_eq.
Qed.

(** When that cascaded [SELECT_IMAGE] throws, [_.attempt] hands back the
    error and the [setIn] chained on it throws in turn. *)
Lemma case_SELECT_DRIVE_cascade_Throws (state : State) (dev : string)
    (drive : gmap string value) (os : value) (e : error) :
  dev ≠ "" →
  findDrive state (VStr dev) = Some drive →
  truthy (get drive "protected") = false →
  selection state !! "os" = Some os →
  isObject os = true →
  isEmpty os = false →
  truthy (get drive "recommendedImage") = true →
  (payload ← recommendedImagePayload (get drive "recommendedImage") os;
   case_SELECT_IMAGE constraints state payload) = Throws e →
  case_SELECT_DRIVE constraints state (VStr dev)
  = Throws (TypeError "_.attempt(...).setIn is not a function").
Proof.
  intros Hdev Hfind Hprot Hos Hobj Hemp Himg He.
  rewrite (case_SELECT_DRIVE_cascade _ _ _ _ Hdev Hfind Hprot Hos Hobj Hemp Himg).
  by rewrite He.
Qed.

(** [SELECT_OS] returns what [_.attempt] hands back: when the derived
    re-selection throws, that is the error. *)
Lemma case_SELECT_OS_derived_Throws (state : State) (data : value)
    (selectedDrive : gmap string value) (newState : State) (e : error) :
  truthy data = true →
  findDrive state (getSelection state "drive") = Some selectedDrive →
  case_SET_AVAILABLE_DRIVES constraints baseGt (setSelection state "os" data)
    (VArr (VObj <$> availableDrives state)) = Returns newState →
  (recommended ← getRecommendedImage constraints baseGt (VObj selectedDrive) data;
   if negb (truthy recommended)
   then case_REMOVE_DRIVE newState
   else case_SELECT_DRIVE constraints newState (get selectedDrive "device")) = Throws e →
  case_SELECT_OS constraints baseGt state data = Returns (ErrObj e).
Proof.
  intros Hdata Hfind Hnew He. unfold case_SELECT_OS.
  rewrite Hdata, Hfind, Hnew. cbn [negb mbind result_bind]. by rewrite He.
Qed.

End Cascade.

(** ** The reducer on the example data *)

Lemma state_os_8G_reached :
  dispatches sizePolicy numberGt DEFAULT_STATE
    [ act SELECT_OS os_8G; act SET_AVAILABLE_DRIVES (VArr [VObj sda; VObj sdb]) ]
  = Returns (St state_os_8G).
Proof. vm_compute. reflexivity. Qed.

Lemma state_os_without_url_reached :
  dispatches sizePolicy numberGt DEFAULT_STATE
    [ act SELECT_OS os_without_url; act SET_AVAILABLE_DRIVES (VArr [VObj sda; VObj sdb]) ]
  = Returns (St state_os_without_url).
Proof. vm_compute. reflexivity. Qed.

Lemma state_sda_selected_reached :
  dispatches sizePolicy numberGt DEFAULT_STATE
    [ act SET_AVAILABLE_DRIVES (VArr [VObj sda; VObj sdb]);
      act SELECT_DRIVE (VStr "/dev/sda") ]
  = Returns (St state_sda_selected).
Proof. vm_compute. reflexivity. Qed.

(** C2: the code departs from the claim.  [/dev/sda] is selected and has come
    back write-protected.  Selecting an operating system that has an image
    recommended for it makes the derived [SELECT_DRIVE] throw; [_.attempt]
    catches the error and [SELECT_OS] returns that error object as the new
    state, instead of the state with [selection.os] set. *)
Theorem SELECT_OS_returns_the_caught_error :
  dispatches sizePolicy numberGt DEFAULT_STATE
    [ act SET_AVAILABLE_DRIVES (VArr [VObj sda; VObj sdb]);
      act SELECT_DRIVE (VStr "/dev/sda");
      act SET_AVAILABLE_DRIVES (VArr [VObj sda_protected; VObj sdb]) ]
  = Returns (St state_sda_protected)
  ∧ selection state_sda_protected !! "drive" = Some (VStr "/dev/sda")
  ∧ case_SELECT_DRIVE sizePolicy
      (set_availableDrives (setSelection state_sda_protected "os" os_8G)
         [<["recommendedImage" := image_8G]> sda_protected; sdb_8G])
      (VStr "/dev/sda")
    = Throws (Error "The drive is write-protected")
  ∧ storeReducer sizePolicy numberGt (Some state_sda_protected) (act SELECT_OS os_8G)
    = Returns (ErrObj (Error "The drive is write-protected")).
Proof. split_and!; vm_compute; reflexivity. Qed.

(** C3: the code departs from the claim.  With [os_without_url] selected,
    the drives carry a recommended image that has no [url].  Selecting
    [/dev/sda] cascades to a [SELECT_IMAGE] that throws 'Missing image path';
    [_.attempt] returns the error object, the [setIn] chained on it throws a
    [TypeError], and the dispatch throws instead of selecting the drive.
    This holds whatever the drive constraints are. *)
Theorem SELECT_DRIVE_cascade_failure_escapes :
  dispatches sizePolicy numberGt DEFAULT_STATE
    [ act SELECT_OS os_without_url; act SET_AVAILABLE_DRIVES (VArr [VObj sda; VObj sdb]) ]
  = Returns (St state_os_without_url)
  ∧ findDrive state_os_without_url (VStr "/dev/sda") = Some sda_without_url
  ∧ get sda_without_url "recommendedImage" = image_without_url
  ∧ (∀ constraints,
       (payload ← recommendedImagePayload image_without_url os_without_url;
        case_SELECT_IMAGE constraints state_os_without_url payload)
       = Throws (Error "Missing image path"))
  ∧ (∀ constraints baseGt,
       storeReducer constraints baseGt (Some state_os_without_url)
         (act SELECT_DRIVE (VStr "/dev/sda"))
       = Throws (TypeError "_.attempt(...).setIn is not a function")).
Proof. split_and!; intros; vm_compute; reflexivity. Qed.

(** C4: the claim as stated fails.  The recommended image of [/dev/sda] has
    [size] 4000000000 and [recommendedDriveSize] 8000000000; the image that
    the cascade selects has [size] 8000000000. *)
Lemma SELECT_DRIVE_cascade_size_is_not_the_image_size :
  findDrive state_os_8G (VStr "/dev/sda") = Some sda_8G
  ∧ get sda_8G "recommendedImage" = image_8G
  ∧ field image_8G "size" = VNum (Num 4000000000)
  ∧ ∃ (s' : State) (payload : gmap string value),
      storeReducer sizePolicy numberGt (Some state_os_8G) (act SELECT_DRIVE (VStr "/dev/sda"))
      = Returns (St s')
      ∧ selection s' !! "image" = Some (VObj payload)
      ∧ get payload "size" = VNum (Num 8000000000)
      ∧ get payload "size" ≠ field image_8G "size".
Proof.
  split_and!; try (vm_compute; reflexivity).
  eexists _, _. split_and!; try (vm_compute; reflexivity).
  vm_compute. discriminate.
Qed.

(** C5: the claim as stated fails.  A [sourceChecksum] of [0] is present and
    is not a string, yet the results are accepted. *)
Lemma UNSET_FLASHING_FLAG_accepts_falsy_sourceChecksum :
get (object [("sourceChecksum", VNum (Num 0))]) "sourceChecksum" = VNum (Num 0)
  ∧ isString (VNum (Num 0)) = false
  ∧ storeReducer sizePolicy numberGt (Some state_flashing)
      (act UNSET_FLASHING_FLAG (VObj (object [("sourceChecksum", VNum (Num 0))])))
    = Returns (St (set_flashResults DEFAULT_STATE
                     (VObj (object [("sourceChecksum", VNum (Num 0));
                                    ("cancelled", VBool false)])))).
Proof. split_and!; vm_compute; reflexivity. Qed.

(** C6: the claim as stated fails.  [NaN] is a number, but a payload whose
    eta is [NaN] is rejected as having no eta. *)
Lemma SET_FLASH_STATE_rejects_NaN_eta :
  isFlashing state_flashing = true
  ∧ isNumber (VNum NaN) = true
  ∧ storeReducer sizePolicy numberGt (Some state_flashing)
      (act SET_FLASH_STATE
         (VObj (object [("type", VStr "write"); ("percentage", VNum (Num 50));
                        ("eta", VNum NaN); ("speed", VNum (Num 1000000))])))
    = Throws (Error "Missing state eta").
Proof. split_and!; vm_compute; reflexivity. Qed.

(** ** The selected drive stays among the available drives *)

Section Invariant.

Variable constraints : Constraints.
Variable baseGt : value → value → bool.

Lemma findDrive_Some (s : State) (dev : string) (drive : gmap string value) :
  findDrive s (VStr dev) = Some drive →
  drive ∈ availableDrives s ∧ drive !! "device" = Some (VStr dev).
Proof.
  intros [Hin Heq]%find_some. apply strict_eq_VStr in Heq.
  split; [by apply list_elem_of_In|].
  unfold get in Heq. by destruct (drive !! "device"); simplify_eq/=.
Qed.

Lemma prop_truthy_object (d : value) (k : string) (v : value) :
  prop d k = Returns v → truthy v = true → isObject d = true.
Proof. destruct d; simpl; intros [= <-]; done. Qed.

Lemma collectionsOk_delete (s : State) (k : string) :
  collectionsOk s → collectionsOk (deleteSelection s k).
Proof.
  intros [Hos Him]. split; intros v; cbn [selection deleteSelection set_selection];
    intros [_ ?]%lookup_delete_Some; eauto.
Qed.

Lemma collectionsOk_set_drive (s : State) (v : value) :
  collectionsOk s → collectionsOk (setSelection s "drive" v).
Proof.
  intros [Hos Him]. split; intros w; cbn [selection setSelection set_selection];
    rewrite lookup_insert_ne by done; eauto.
Qed.

Lemma collectionsOk_set_image (s : State) (v : value) :
  isObject v = true → collectionsOk s → collectionsOk (setSelection s "image" v).
Proof.
  intros Hv [Hos Him]. split; intros w; cbn [selection setSelection set_selection].
  - rewrite lookup_insert_ne by done. eauto.
  - rewrite lookup_insert_eq. by intros [= <-].
Qed.

Lemma wf_delete_drive (s : State) :
  collectionsOk s → wf (deleteSelection s "drive").
Proof.
  intros H. split; [|by apply collectionsOk_delete].
  intros d. cbn [selection deleteSelection set_selection].
  by rewrite lookup_delete_eq.
Qed.

Lemma wf_delete (s : State) (k : string) : wf s → wf (deleteSelection s k).
Proof.
  intros [Hd Hc]. split; [|by apply collectionsOk_delete].
  intros d. cbn [selection deleteSelection set_selection availableDrives].
  intros [_ ?]%lookup_delete_Some. eauto.
Qed.

Lemma wf_set_image (s : State) (v : value) :
  isObject v = true → wf s → wf (setSelection s "image" v).
Proof.
  intros Hv [Hd Hc]. split; [|by apply collectionsOk_set_image].
  intros d. cbn [selection setSelection set_selection availableDrives].
  rewrite lookup_insert_ne by done. eauto.
Qed.

Lemma wf_set_drive (s : State) (dev : string) (drive : gmap string value) :
  dev ≠ "" → drive ∈ availableDrives s → drive !! "device" = Some (VStr dev) →
  collectionsOk s → wf (setSelection s "drive" (VStr dev)).
Proof.
  intros Hdev Hin Hdrive Hc. split; [|by apply collectionsOk_set_drive].
  intros d. cbn [selection setSelection set_selection availableDrives].
  rewrite lookup_insert_eq. intros [= <-]. eauto 6.
Qed.

Lemma case_REMOVE_DRIVE_wf (s s' : State) :
  case_REMOVE_DRIVE s = Returns s' → collectionsOk s → wf s'.
Proof.
  rewrite case_REMOVE_DRIVE_Returns. intros [= <-] Hc. apply wf_delete_drive.
  destruct (truthy _); [by apply collectionsOk_delete|done].
Qed.

(** [SELECT_IMAGE] keeps the operating system, stores a collection as the
    image, and leaves the selected drive alone or clears it. *)
Lemma case_SELECT_IMAGE_selection (s : State) (data : value) (s' : State) :
  case_SELECT_IMAGE constraints s data = Returns s' →
  isObject data = true
  ∧ ∃ s0, s' = setSelection s0 "image" data
          ∧ (s0 = s ∨ ∃ s1, s0 = deleteSelection s1 "drive"
                            ∧ (s1 = s ∨ s1 = deleteSelection s "image")).
Proof.
  unfold case_SELECT_IMAGE. intros H.
  apply bind_Returns in H as (path & Hpath & H).
  destruct (truthy path) eqn:Htruthy; [|done].
  pose proof (prop_truthy_object _ _ _ Hpath Htruthy) as Hobj.
  split; [done|]. cbn [negb] in H. returned H.
  - apply attempted_setSelection_Returns in H as (s0 & H & ->).
    exists s0. split; [done|]. returned H; subst; eauto.
    rewrite case_REMOVE_DRIVE_Returns in H. injection H as <-.
    right. destruct (truthy (getSelection s "os")); eauto.
  - subst. eauto.
Qed.

Lemma case_SELECT_IMAGE_collectionsOk (s : State) (data : value) (s' : State) :
  case_SELECT_IMAGE constraints s data = Returns s' →
  collectionsOk s → collectionsOk s'.
Proof.
  intros (Hobj & s0 & -> & Hs0)%case_SELECT_IMAGE_selection Hc.
  apply collectionsOk_set_image; [done|].
  destruct Hs0 as [->|(s1 & -> & [->| ->])]; auto using collectionsOk_delete.
Qed.

Lemma case_SELECT_IMAGE_wf (s : State) (data : value) (s' : State) :
  case_SELECT_IMAGE constraints s data = Returns s' → wf s → wf s'.
Proof.
  intros (Hobj & s0 & -> & Hs0)%case_SELECT_IMAGE_selection Hwf.
  apply wf_set_image; [done|].
  destruct Hs0 as [->|(s1 & -> & [->| ->])]; auto using wf_delete.
Qed.

(** [SELECT_DRIVE] establishes the invariant for the drive it selects. *)
Lemma case_SELECT_DRIVE_wf (s : State) (data : value) (s' : State) :
  case_SELECT_DRIVE constraints s data = Returns s' →
  collectionsOk s → wf s'.
Proof.
  unfold case_SELECT_DRIVE. intros H Hc.
  destruct (truthy data) eqn:Htruthy; [|done]. cbn [negb] in H.
  destruct data as [| | | |dev| |]; try done. cbn [isString negb] in H.
  apply truthy_VStr in Htruthy.
  destruct (findDrive s (VStr dev)) as [drive|] eqn:Hfind; [|done].
  apply findDrive_Some in Hfind as [Hin Hdrive].
  returned H; subst; try by eapply wf_set_drive.
  apply attempted_setSelection_Returns in H as (s0 & H & ->).
  returned H.
  pose proof (case_SELECT_IMAGE_frame _ _ _ _ H) as [Hdrives _].
  apply case_SELECT_IMAGE_collectionsOk in H; [|done].
  eapply wf_set_drive; [done| |done..]. by rewrite Hdrives.
Qed.

Lemma toJS_collection (s : State) (k : string) (w : value) :
  toJS (getSelectionOr s k (VObj ∅)) = Returns w →
  isObject w = true ∧ w = getSelectionOr s k (VObj ∅)
  ∧ ∀ v, selection s !! k = Some v → isObject v = true.
Proof.
  intros [Hobj ->]%toJS_Returns. split_and!; [done..|].
  intros v Hv. by rewrite (getSelectionOr_Some _ _ _ _ Hv) in Hobj.
Qed.

Lemma case_SET_AVAILABLE_DRIVES_wf (s : State) (data : value) (s' : State) :
  case_SET_AVAILABLE_DRIVES constraints baseGt s data = Returns s' →
  driveNamed s → wf s'.
Proof.
  unfold case_SET_AVAILABLE_DRIVES. intros H Hnamed.
  destruct (truthy data); [|done]. cbn [negb] in H.
  destruct (plainObjects data) as [drives0|]; [|done].
  apply bind_Returns in H as (os & (_ & _ & Hos)%toJS_collection & H).
  apply bind_Returns in H as (image & (_ & _ & Him)%toJS_collection & H).
  apply bind_Returns in H as (drives & _ & H).
  assert (collectionsOk (set_availableDrives s drives)) as Hc by done.
  assert (∀ s',
    (if truthy (getSelection (set_availableDrives s drives) "drive")
        && negb (existsb (λ drive, strict_eq (get drive "device")
                                     (getSelection (set_availableDrives s drives) "drive"))
                         drives)
     then case_REMOVE_DRIVE (set_availableDrives s drives)
     else Returns (set_availableDrives s drives)) = Returns s' → wf s') as Hrest.
  { clear H. intros s0 H.
    destruct (_ && _) eqn:Hcond; [by eapply case_REMOVE_DRIVE_wf|].
    injection H as <-. split; [|done].
    intros d Hd. cbn [selection set_availableDrives availableDrives] in *.
    destruct (Hnamed _ Hd) as (dev & -> & Hdev). exists dev. split_and!; [done..|].
    unfold getSelection, get in Hcond.
    cbn [selection set_availableDrives] in Hcond. rewrite Hd in Hcond.
    cbn [default] in Hcond. apply truthy_VStr in Hdev. cbn in Hdev.
    cbn in Hcond. rewrite Hdev in Hcond. cbn in Hcond.
    apply negb_false_iff, existsb_exists in Hcond as (drive & Hin & Heq).
    apply strict_eq_VStr in Heq. exists drive. split; [by apply list_elem_of_In|].
    unfold get in Heq. by destruct (drive !! "device"); simplify_eq/=. }
  destruct drives as [|drive [|]]; auto.
  destruct (autoSelectable _ _ _ _); auto.
  by eapply case_SELECT_DRIVE_wf.
Qed.

Lemma case_SELECT_OS_wf (s : State) (data : value) (s' : State) :
  case_SELECT_OS constraints baseGt s data = Returns (St s') →
  driveNamed s → wf s'.
Proof.
  unfold case_SELECT_OS. intros H Hnamed.
  destruct (truthy data); [|done]. cbn [negb] in H.
  apply bind_Returns in H as (newState & Hnew & H).
  apply case_SET_AVAILABLE_DRIVES_wf in Hnew as Hwf.
  2: { intros d. cbn [selection setSelection set_selection].
       rewrite lookup_insert_ne by done. apply Hnamed. }
  destruct (findDrive _ _); [|by simplify_eq].
  injection H as H.
  destruct (getRecommendedImage _ _ _ _) as [rec|]; [|done].
  cbn [mbind result_bind] in H. destruct Hwf as [_ Hc].
  destruct (negb (truthy rec)).
  - destruct (case_REMOVE_DRIVE newState) eqn:Hr; [|done].
    injection H as <-. by eapply case_REMOVE_DRIVE_wf.
  - destruct (case_SELECT_DRIVE _ _ _) eqn:Hr; [|done].
    injection H as <-. by eapply case_SELECT_DRIVE_wf.
Qed.

Lemma wf_driveNamed (s : State) : wf s → driveNamed s.
Proof. intros [Hd _] d Hsel. destruct (Hd _ Hsel) as (dev & ? & ? & _). eauto. Qed.

(** Every action keeps the invariant. *)
Lemma storeReducer_wf (s : State) (a : action) (s' : State) :
  storeReducer constraints baseGt (Some s) a = Returns (St s') → wf s → wf s'.
Proof.
  unfold storeReducer. cbn [default]. intros H Hwf.
  pose proof (wf_driveNamed _ Hwf) as Hnamed.
  destruct (kind_of (type a)) as [[]|];
    try (apply returns_St in H as (s0 & H & [= <-])).
  - by eapply case_SET_AVAILABLE_DRIVES_wf.
  - unfold case_SET_FLASH_STATE in H. returned H. by subst.
  - injection H as <-. done.
  - injection H as <-. done.
  - unfold case_UNSET_FLASHING_FLAG in H. returned H. by subst.
  - by eapply case_SELECT_OS_wf.
  - eapply case_SELECT_DRIVE_wf; [done|]. by destruct Hwf.
  - by eapply case_SELECT_IMAGE_wf.
  - rewrite case_REMOVE_OS_Returns in H. injection H as <-.
    destruct (truthy _); auto using wf_delete.
  - eapply case_REMOVE_DRIVE_wf; [done|]. by destruct Hwf.
  - injection H as <-. by apply wf_delete.
  - unfold case_SET_SETTING in H. returned H. by subst.
  - by injection H as <-.
Qed.

Lemma reachable_wf (s : State) : reachable constraints baseGt s → wf s.
Proof.
  induction 1 as [|subset|s a s' _ IH Hstep].
  - by repeat split.
  - by repeat split.
  - by eapply storeReducer_wf.
Qed.

Lemma wf_driveResolves (s : State) : wf s → driveResolves s.
Proof.
  intros [Hd _] d Hsel. destruct (Hd _ Hsel) as (dev & -> & _ & drive & ? & ?).
  eauto.
Qed.

(** *** A new list of drives that omits the selected one *)

Lemma mapM_Returns {A B} (f : A → result B) (l : list A) (k : list B) :
  mapM f l = Returns k ↔ Forall2 (λ x y, f x = Returns y) l k.
Proof.
  revert k. induction l as [|x l IH]; intros k; cbn.
  - split; [intros [= <-]; constructor|by inversion 1].
  - split.
    + intros (y & Hy & H)%bind_Returns.
      apply bind_Returns in H as (k' & Hk' & [= <-]).
      constructor; [done|]. by apply IH.
    + inversion 1 as [|? y ? k' Hy Hk']; subst. cbn. rewrite Hy. cbn.
      apply IH in Hk'. by rewrite Hk'.
Qed.

Lemma plainObjects_objects (drives : list (gmap string value)) :
  plainObjects (VArr (VObj <$> drives)) = Some drives.
Proof. unfold plainObjects. by apply mapM_fmap_Some. Qed.

Lemma annotate_device (os : value) (drive drive' : gmap string value) :
  annotate constraints baseGt os drive = Returns drive' →
  get drive' "device" = get drive "device".
Proof.
  unfold annotate. intros (rec & _ & [= <-])%bind_Returns.
  destruct (truthy rec); [|done]. unfold get. by rewrite lookup_insert_ne.
Qed.

Lemma baseExtremum_Returns (iteratee : value → result value) (array : list value) :
  Forall (λ v, ∃ current, iteratee v = Returns current) array →
  ∀ computed res, ∃ r, baseExtremum baseGt iteratee array computed res = Returns r.
Proof.
  induction 1 as [|v rest [current Hv] _ IH]; intros computed res; cbn; [by eexists|].
  rewrite Hv. cbn. destruct (_ && _); apply IH.
Qed.

Lemma getRecommendedImage_Returns (drive os : value) :
  isObject os = true → imagesDefined os →
  ∃ r, getRecommendedImage constraints baseGt drive os = Returns r.
Proof.
  intros Hobj Himages. unfold getRecommendedImage.
  rewrite (prop_field_object _ _ Hobj). cbn [mbind result_bind]. unfold maxBy.
  destruct (field os "images") as [| | | | |l|] eqn:Hfield; try by eexists.
  apply baseExtremum_Returns. eapply Forall_impl; [by apply Himages|].
  intros image [Hu Hn]. cbn beta.
  destruct (isDriveSizeRecommended _ _ _); [|by eexists].
  destruct image; try done; by eexists.
Qed.

Lemma annotate_Returns (os : value) (drives : list (gmap string value)) :
  isObject os = true → imagesDefined os →
  ∃ drives', mapM (annotate constraints baseGt os) drives = Returns drives'.
Proof.
  intros Hobj Himages. induction drives as [|drive drives [drives' IH]].
  - exists []. by apply mapM_Returns.
  - assert (∃ drive', annotate constraints baseGt os drive = Returns drive')
      as [drive' Hdrive].
    { unfold annotate.
      destruct (getRecommendedImage_Returns (VObj drive) os Hobj Himages) as [r ->].
      by eexists. }
    exists (drive' :: drives'). apply mapM_Returns.
    constructor; [done|]. by apply mapM_Returns.
Qed.

(** [SET_AVAILABLE_DRIVES] on an array of plain objects, in a state whose
    selected operating system and image are collections: what is left is
    the annotation of the drives and the choice between selecting and
    removing. *)
Lemma case_SET_AVAILABLE_DRIVES_objects (s : State) (drives : list (gmap string value)) :
  collectionsOk s →
  case_SET_AVAILABLE_DRIVES constraints baseGt s (VArr (VObj <$> drives)) =
  drives' ← mapM (annotate constraints baseGt (getSelectionOr s "os" (VObj ∅))) drives;
  let newState := set_availableDrives s drives' in
  let rest :=
    if truthy (getSelection s "drive")
       && negb (existsb (λ drive, strict_eq (get drive "device") (getSelection s "drive"))
                        drives')
    then case_REMOVE_DRIVE newState
    else Returns newState in
  match drives' with
  | [drive] =>
      if autoSelectable constraints drive
           (getSelectionOr s "image" (VObj ∅)) (getSelectionOr s "os" (VObj ∅))
      then case_SELECT_DRIVE constraints newState (get drive "device")
      else rest
  | _ => rest
  end.
Proof.
  intros [Hos Him]. unfold case_SET_AVAILABLE_DRIVES.
  cbn [truthy negb]. rewrite plainObjects_objects.
  assert (∀ k, (∀ v, selection s !! k = Some v → isObject v = true) →
               isObject (getSelectionOr s k (VObj ∅)) = true) as Hcoll.
  { intros k Hk. unfold getSelectionOr.
    destruct (selection s !! k) as [v|] eqn:Hv; cbn; [by apply Hk|done]. }
  pose proof (Hcoll _ Hos) as Hobj_os. pose proof (Hcoll _ Him) as Hobj_im.
  rewrite (proj2 (toJS_Returns _ _) (conj Hobj_os eq_refl)).
  rewrite (proj2 (toJS_Returns _ _) (conj Hobj_im eq_refl)).
  cbn [mbind result_bind]. by rewrite (isObject_truthy _ Hobj_os).
Qed.

Lemma collectionsOk_getSelectionOr (s : State) :
  collectionsOk s → isObject (getSelectionOr s "os" (VObj ∅)) = true.
Proof.
  intros [Hos _]. unfold getSelectionOr.
  destruct (selection s !! "os") as [v|] eqn:Hv; cbn; [by apply Hos|done].
Qed.

(** Away from the auto-selection of a single drive, the dispatch returns
    as soon as the annotation of the drives does. *)
Lemma case_SET_AVAILABLE_DRIVES_rest (s : State) (drives drives' : list (gmap string value)) :
  collectionsOk s →
  ¬ autoSelects constraints baseGt s drives →
  mapM (annotate constraints baseGt (getSelectionOr s "os" (VObj ∅))) drives
  = Returns drives' →
  case_SET_AVAILABLE_DRIVES constraints baseGt s (VArr (VObj <$> drives)) =
  if truthy (getSelection s "drive")
     && negb (existsb (λ drive, strict_eq (get drive "device") (getSelection s "drive"))
                      drives')
  then case_REMOVE_DRIVE (set_availableDrives s drives')
  else Returns (set_availableDrives s drives').
Proof.
  intros Hc Hauto Hmap. rewrite case_SET_AVAILABLE_DRIVES_objects by done.
  rewrite Hmap. cbn [mbind result_bind]. cbv zeta.
  destruct drives' as [|drive' [|]]; try done.
  destruct (autoSelectable _ _ _ _) eqn:Hsel; [|done].
  destruct Hauto. apply mapM_Returns in Hmap.
  inversion Hmap as [|drive ? ? ? Hdrive Hnil]; subst. inversion Hnil; subst.
  by exists drive, drive'.
Qed.

Lemma case_SET_AVAILABLE_DRIVES_omitting (s : State) (dev : value)
    (drives drives' : list (gmap string value)) :
  wf s →
  selection s !! "drive" = Some dev →
  (∀ drive, drive ∈ drives → get drive "device" ≠ dev) →
  ¬ autoSelects constraints baseGt s drives →
  mapM (annotate constraints baseGt (getSelectionOr s "os" (VObj ∅))) drives
  = Returns drives' →
  ∃ s', case_SET_AVAILABLE_DRIVES constraints baseGt s (VArr (VObj <$> drives))
        = Returns s'
        ∧ selection s' !! "drive" = None
        ∧ (is_Some (selection s !! "os") → selection s' !! "image" = None).
Proof.
  intros [Hd Hc] Hsel Homit Hauto Hmap.
  rewrite (case_SET_AVAILABLE_DRIVES_rest _ _ _ Hc Hauto Hmap).
  destruct (Hd _ Hsel) as (name & -> & Hname & _).
  rewrite (getSelection_Some _ _ _ Hsel).
  rewrite (proj2 (truthy_VStr _) Hname).
  assert (existsb (λ drive, strict_eq (get drive "device") (VStr name)) drives' = false)
    as ->.
  { apply not_true_is_false. intros (drive' & Hin & Heq)%existsb_exists.
    apply strict_eq_VStr in Heq. apply mapM_Returns in Hmap.
    apply list_elem_of_In, list_elem_of_lookup in Hin as [i Hi].
    destruct (Forall2_lookup_r _ _ _ _ _ Hmap Hi) as (drive & Hdrive & Hann).
    apply annotate_device in Hann.
    apply (Homit drive); [by eapply list_elem_of_lookup_2|congruence]. }
  cbn [negb andb]. rewrite case_REMOVE_DRIVE_Returns. eexists. split; [done|].
  cbn [selection deleteSelection set_selection]. split; [by rewrite lookup_delete_eq|].
  intros [os Hos]. destruct Hc as [Hcos _].
  rewrite (getSelection_Some (set_availableDrives s drives') "os" os Hos).
  rewrite (isObject_truthy _ (Hcos _ Hos)).
  cbn [selection deleteSelection set_selection].
  by rewrite lookup_delete_ne, lookup_delete_eq.
Qed.

(** C1, as amended.  In every state of the store: when a dispatch returns
    a state and that state has [selection.drive] set, an available drive
    has that device; and a [SET_AVAILABLE_DRIVES] whose list omits the
    selected device, and is not a single drive that passes the
    auto-selection checks, clears [selection.drive] whenever it returns,
    and clears [selection.image] too if an operating system is selected.
    Such a dispatch does return when no entry of the images of the
    selected operating system is [undefined] or [null]. *)
Theorem selected_drive_is_available (s : State) :
  reachable constraints baseGt s →
  (∀ a s',
     storeReducer constraints baseGt (Some s) a = Returns (St s') →
     driveResolves s')
  ∧ (∀ dev drives r,
       selection s !! "drive" = Some dev →
       (∀ drive, drive ∈ drives → get drive "device" ≠ dev) →
       ¬ autoSelects constraints baseGt s drives →
       storeReducer constraints baseGt (Some s)
         (act SET_AVAILABLE_DRIVES (VArr (VObj <$> drives))) = Returns r →
       ∃ s', r = St s'
             ∧ selection s' !! "drive" = None
             ∧ (is_Some (selection s !! "os") → selection s' !! "image" = None))
  ∧ (∀ drives,
       ¬ autoSelects constraints baseGt s drives →
       imagesDefined (getSelectionOr s "os" (VObj ∅)) →
       ∃ s', storeReducer constraints baseGt (Some s)
               (act SET_AVAILABLE_DRIVES (VArr (VObj <$> drives))) = Returns (St s')).
Proof.
  intros Hwf%reachable_wf. split_and!.
  - intros a s' Hstep. eapply wf_driveResolves, storeReducer_wf; done.
  - intros dev drives r Hsel Homit Hauto. rewrite storeReducer_act.
    intros (s' & Hstep & ->)%returns_St. exists s'. split; [done|].
    pose proof Hstep as Hstep'.
    rewrite case_SET_AVAILABLE_DRIVES_objects in Hstep' by (by destruct Hwf).
    apply bind_Returns in Hstep' as (drives' & Hmap & _).
    destruct (case_SET_AVAILABLE_DRIVES_omitting s dev drives drives'
                Hwf Hsel Homit Hauto Hmap) as (s0 & Hs0 & Hgoal).
    rewrite Hs0 in Hstep. by injection Hstep as <-.
  - intros drives Hauto Himages. rewrite storeReducer_act.
    destruct Hwf as [Hd Hc].
    destruct (annotate_Returns _ drives (collectionsOk_getSelectionOr _ Hc) Himages)
      as [drives' Hmap].
    rewrite (case_SET_AVAILABLE_DRIVES_rest _ _ _ Hc Hauto Hmap).
    destruct (_ && _); [rewrite case_REMOVE_DRIVE_Returns|]; by eexists.
Qed.

End Invariant.

(** ** Instances of the theorems on the example data *)

Lemma state_os_8G_sda_reached :
  storeReducer sizePolicy numberGt (Some state_os_8G) (act SELECT_DRIVE (VStr "/dev/sda"))
  = Returns (St state_os_8G_sda).
Proof. vm_compute. reflexivity. Qed.

Lemma state_os_8G_sda_reachable : reachable sizePolicy numberGt state_os_8G_sda.
Proof.
  eapply reachable_dispatch; [|exact state_os_8G_sda_reached].
  eapply (reachable_dispatch _ _ (setSelection DEFAULT_STATE "os" os_8G)
            (act SET_AVAILABLE_DRIVES (VArr [VObj sda; VObj sdb])));
    [|vm_compute; reflexivity].
  eapply (reachable_dispatch _ _ DEFAULT_STATE (act SELECT_OS os_8G));
    [apply reachable_default|vm_compute; reflexivity].
Defined.

(** C1: the claim as stated fails.  [/dev/sda] is selected, with an
    operating system and its image.  A new list that holds [/dev/sdb] alone
    omits the selected device; [/dev/sdb] passes the checks and is selected in
    its place, together with its image: neither [selection.drive] nor
    [selection.image] is cleared. *)
Lemma SET_AVAILABLE_DRIVES_selects_the_single_new_drive :
  selection state_os_8G_sda !! "drive" = Some (VStr "/dev/sda")
  ∧ is_Some (selection state_os_8G_sda !! "os")
  ∧ get sdb "device" ≠ VStr "/dev/sda"
  ∧ ∃ s', storeReducer sizePolicy numberGt (Some state_os_8G_sda)
            (act SET_AVAILABLE_DRIVES (VArr [VObj sdb]))
          = Returns (St s')
          ∧ selection s' !! "drive" = Some (VStr "/dev/sdb")
          ∧ selection s' !! "image" = Some (VObj selected_8G).
Proof.
  split_and!; [vm_compute; reflexivity|by eexists|vm_compute; discriminate|].
  eexists. split_and!; vm_compute; reflexivity.
Qed.

(** C1 on [state_os_8G_sda]: a list of two other drives clears the selected
    drive and image. *)
Lemma selected_drive_is_available_witness :
  reachable sizePolicy numberGt state_os_8G_sda
  ∧ (∀ s', storeReducer sizePolicy numberGt (Some state_os_8G_sda)
             (act SELECT_IMAGE (VObj selected_8G)) = Returns (St s') →
           driveResolves s')
  ∧ ∃ s', storeReducer sizePolicy numberGt (Some state_os_8G_sda)
            (act SET_AVAILABLE_DRIVES (VArr (VObj <$> [sdb; sdc])))
          = Returns (St s')
          ∧ selection s' !! "drive" = None
          ∧ selection s' !! "image" = None.
Proof.
  destruct (selected_drive_is_available sizePolicy numberGt state_os_8G_sda
              state_os_8G_sda_reachable) as (Hresolves & Hclears & Hreturns).
  assert (¬ autoSelects sizePolicy numberGt state_os_8G_sda [sdb; sdc]) as Hauto.
  { intros (drive & drive' & Heq & _). discriminate Heq. }
  split_and!; [exact state_os_8G_sda_reachable|intros s'; apply Hresolves|].
  destruct (Hreturns [sdb; sdc] Hauto) as [s' Hs'].
  { intros l [= <-]. repeat constructor; discriminate. }
  destruct (Hclears (VStr "/dev/sda") [sdb; sdc] (St s')) as (s0 & [= <-] & Hdrive & Himage);
    [vm_compute; reflexivity| |exact Hauto|exact Hs'|].
  { intros drive Hin%list_elem_of_In. cbn in Hin.
    destruct Hin as [<-|[<-|[]]]; vm_compute; discriminate. }
  exists s'. split_and!; [exact Hs'|exact Hdrive|].
  apply Himage. by eexists.
Defined.

(** C8 on the action redux sends when the store is created. *)
Lemma unknown_action_is_noop_witness :
  (VStr "@@redux/INIT" ∉ VStr <$> ACTIONS)
  ∧ storeReducer sizePolicy numberGt (Some state_os_8G_sda)
      (mkAction (VStr "@@redux/INIT") VUndef)
    = Returns (St state_os_8G_sda).
Proof.
  assert (VStr "@@redux/INIT" ∉ VStr <$> ACTIONS) as H.
  { intros H%list_elem_of_In. cbn in H. intuition discriminate. }
  split; [exact H|].
  exact (unknown_action_is_noop sizePolicy numberGt state_os_8G_sda
           (mkAction (VStr "@@redux/INIT") VUndef) H).
Defined.

(** C9 on the selection of [/dev/sda] in [state_os_8G]. *)
Lemma settings_change_only_by_SET_SETTING_witness :
  SELECT_DRIVE ≠ SET_SETTING
  ∧ storeReducer sizePolicy numberGt (Some state_os_8G) (act SELECT_DRIVE (VStr "/dev/sda"))
    = Returns (St state_os_8G_sda)
  ∧ settings state_os_8G_sda = settings state_os_8G.
Proof.
  assert (SELECT_DRIVE ≠ SET_SETTING) as H by discriminate.
  split_and!; [exact H|exact state_os_8G_sda_reached|].
  exact (settings_change_only_by_SET_SETTING sizePolicy numberGt state_os_8G
           (act SELECT_DRIVE (VStr "/dev/sda")) SELECT_DRIVE state_os_8G_sda
           eq_refl H state_os_8G_sda_reached).
Defined.

(** C10 on an image with an empty path and on one with size [0]. *)
Lemma SELECT_IMAGE_falsy_fields_are_missing_witness :
  storeReducer sizePolicy numberGt (Some DEFAULT_STATE)
    (act SELECT_IMAGE (VObj (object [("path", VStr ""); ("size", VNum (Num 4000000000))])))
  = Throws (Error "Missing image path")
  ∧ storeReducer sizePolicy numberGt (Some DEFAULT_STATE)
      (act SELECT_IMAGE (VObj (object [("path", VStr "/home/user/os.img");
                                       ("size", VNum (Num 0))])))
    = Throws (Error "Missing image size").
Proof.
  split.
  - apply (SELECT_IMAGE_falsy_fields_are_missing sizePolicy numberGt DEFAULT_STATE
             (object [("path", VStr ""); ("size", VNum (Num 4000000000))])).
    reflexivity.
  - apply (SELECT_IMAGE_falsy_fields_are_missing sizePolicy numberGt DEFAULT_STATE
             (object [("path", VStr "/home/user/os.img"); ("size", VNum (Num 0))])).
    + reflexivity.
    + exists "/home/user/os.img". split; [reflexivity|discriminate].
Defined.

(** C7 on [unsafeMode] and on an unsupported key. *)
Lemma SET_SETTING_round_trip_witness :
  (∃ s', storeReducer sizePolicy numberGt (Some DEFAULT_STATE)
           (act SET_SETTING (VObj (object [("key", VStr "unsafeMode");
                                           ("value", VBool true)])))
         = Returns (St s')
         ∧ get (settings s') "unsafeMode" = VBool true)
  ∧ (∃ e, storeReducer sizePolicy numberGt (Some DEFAULT_STATE)
            (act SET_SETTING (VObj (object [("key", VStr "colour"); ("value", VStr "red")])))
          = Throws e
          ∧ dispatch sizePolicy numberGt DEFAULT_STATE
              (act SET_SETTING (VObj (object [("key", VStr "colour");
                                              ("value", VStr "red")])))
            = (St DEFAULT_STATE, Some e)).
Proof.
  destruct (SET_SETTING_round_trip sizePolicy numberGt DEFAULT_STATE) as [Hset Hreject].
  split.
  - apply (Hset _ "unsafeMode" (VBool true)); [constructor|reflexivity..].
  - apply Hreject. intros k [= <-] H%list_elem_of_In. cbn in H. intuition discriminate.
Defined.

(** C6 on the progress report of Scenario C, without and with a flash in
    progress. *)
Lemma SET_FLASH_STATE_contract_witness :
  storeReducer sizePolicy numberGt (Some DEFAULT_STATE)
    (act SET_FLASH_STATE
       (VObj (object [("type", VStr "decompressing"); ("percentage", VNum (Num 50));
                      ("eta", VNum (Num 30)); ("speed", VNum (Num 1000000))])))
  = Throws (Error "Can't set the flashing state when not flashing")
  ∧ storeReducer sizePolicy numberGt (Some state_flashing)
      (act SET_FLASH_STATE
         (VObj (object [("type", VStr "decompressing"); ("percentage", VNum (Num 50));
                        ("eta", VNum (Num 30)); ("speed", VNum (Num 1000000))])))
    = Returns (St (set_flashState state_flashing
                     (VObj (object [("type", VStr "decompressing");
                                    ("percentage", VNum (Num 50));
                                    ("eta", VNum (Num 30));
                                    ("speed", VNum (Num 1000000))])))).
Proof.
  split.
  - apply (SET_FLASH_STATE_contract sizePolicy numberGt DEFAULT_STATE). reflexivity.
  - apply (proj2 (SET_FLASH_STATE_contract sizePolicy numberGt state_flashing) _
             "decompressing" (Num 50) 30%Z);
      [reflexivity|reflexivity|discriminate|reflexivity|reflexivity
      |vm_compute; discriminate|vm_compute; discriminate].
Defined.

(** C5 on the two results of Scenario D. *)
Lemma UNSET_FLASHING_FLAG_contract_witness :
  storeReducer sizePolicy numberGt (Some state_flashing)
    (act UNSET_FLASHING_FLAG
       (VObj (object [("cancelled", VBool true); ("sourceChecksum", VStr "abc")])))
  = Throws (Error "The sourceChecksum value can't exist if the flashing was cancelled")
  ∧ storeReducer sizePolicy numberGt (Some state_flashing)
      (act UNSET_FLASHING_FLAG (VObj (object [("cancelled", VBool true)])))
    = Returns (St (set_flashState
                     (set_flashResults (set_isFlashing state_flashing false)
                        (VObj (withCancelled (object [("cancelled", VBool true)]))))
                     (flashState DEFAULT_STATE))).
Proof.
  destruct (UNSET_FLASHING_FLAG_contract sizePolicy numberGt state_flashing) as [_ H].
  split.
  - apply (H (object [("cancelled", VBool true); ("sourceChecksum", VStr "abc")]));
      reflexivity.
  - apply (H (object [("cancelled", VBool true)]));
      [reflexivity|reflexivity|discriminate|discriminate].
Defined.

(** C4 on the selection of [/dev/sda] in [state_os_8G]. *)
Lemma SELECT_DRIVE_cascade_payload_witness :
  findDrive state_os_8G (VStr "/dev/sda") = Some sda_8G
  ∧ selection state_os_8G !! "os" = Some os_8G
  ∧ get sda_8G "recommendedImage" = image_8G
  ∧ ∃ payload : gmap string value,
      get payload "path" = VStr "http://example.org/os-8G.img.xz"
      ∧ get payload "size" = VNum (Num 8000000000)
      ∧ get payload "downloadChecksum" = VStr "0123abcd"
      ∧ get payload "downloadChecksumType" = VStr "md5"
      ∧ get payload "logo" = VStr "debian.svg"
      ∧ get payload "version" = VStr "9.1"
      ∧ storeReducer sizePolicy numberGt (Some state_os_8G) (act SELECT_DRIVE (VStr "/dev/sda"))
        = returns (attempted_setSelection
                     (attempt (case_SELECT_IMAGE sizePolicy state_os_8G (VObj payload)))
                     "drive" (VStr "/dev/sda")).
Proof.
  split_and!; [vm_compute; reflexivity..|].
  destruct (SELECT_DRIVE_cascade_payload sizePolicy numberGt state_os_8G "/dev/sda"
              sda_8G os_8G) as (payload & H1 & H2 & H3 & H4 & H5 & H6 & H7 & _);
    [discriminate|vm_compute; reflexivity..|].
  exists payload. split_and!; [exact H1|exact H2|exact H3|exact H4|exact H5|exact H6|exact H7].
Defined.


(** * Further properties of the store *)

(** Lookups in a selection built from inserts and deletes of literal keys. *)
Ltac lookups :=
  repeat first
    [ rewrite lookup_insert_eq
    | rewrite lookup_insert_ne by done
    | rewrite lookup_delete_eq
    | rewrite lookup_delete_ne by done ].

(** ** The recommended image of a drive *)

Section Recommended.

Variable constraints : Constraints.
Variable baseGt : value → value → bool.

Lemma baseExtremum_kept (iteratee : value → result value) (array : list value)
    (computed : option value) (res r : value) :
  baseExtremum baseGt iteratee array computed res = Returns r →
  r = res
  ∨ (r ∈ array
     ∧ ∃ current, iteratee r = Returns current ∧ current ≠ VUndef ∧ current ≠ VNull).
Proof.
  revert computed res. induction array as [|v rest IH]; intros computed res; cbn.
  - intros [= <-]. by left.
  - intros (current & Hcurrent & H)%bind_Returns.
    destruct (negb (isUndefined current || isNull current) && _) eqn:Hkeep.
    + apply IH in H as [->|[Hin Hr]].
      * right. split; [by left|]. exists current.
        apply andb_true_iff in Hkeep as [Hnil _]. by destruct current.
      * right. split; [by right|done].
    + apply IH in H as [->|[Hin Hr]]; [by left|].
      right. split; [by right|done].
Qed.

Lemma getRecommendedImage_inv (drive os r : value) :
  getRecommendedImage constraints baseGt drive os = Returns r →
  r = VUndef
  ∨ ∃ l size,
      field os "images" = VArr l ∧ r ∈ l
      ∧ isDriveSizeRecommended constraints drive r = true
      ∧ prop r "recommendedDriveSize" = Returns size
      ∧ size ≠ VUndef ∧ size ≠ VNull.
Proof.
  unfold getRecommendedImage. intros (images & Himages & H)%bind_Returns.
  assert (images = field os "images") as -> by (by destruct os; simplify_eq/=).
  unfold maxBy in H. destruct (field os "images") as [| | | | |l|] eqn:Hl;
    try (left; congruence).
  apply baseExtremum_kept in H as [->|(Hin & current & Hcurrent & Hu & Hn)];
    [by left|].
  right. exists l, current.
  destruct (isDriveSizeRecommended constraints drive r); [done|].
  by simplify_eq.
Qed.

(** X1.  What [getRecommendedImage] returns is [undefined] or an entry of
    [os.images] for which the drive is size-recommended and whose
    [recommendedDriveSize] is neither [undefined] nor [null]; it is
    [undefined] when no entry is size-recommended. *)
Theorem getRecommendedImage_sound (drive os : value) :
  (∀ r, getRecommendedImage constraints baseGt drive os = Returns r →
        r = VUndef
        ∨ ∃ l size,
            field os "images" = VArr l ∧ r ∈ l
            ∧ isDriveSizeRecommended constraints drive r = true
            ∧ prop r "recommendedDriveSize" = Returns size
            ∧ size ≠ VUndef ∧ size ≠ VNull)
  ∧ (isObject os = true →
     (∀ l image, field os "images" = VArr l → image ∈ l →
                 isDriveSizeRecommended constraints drive image = false) →
     getRecommendedImage constraints baseGt drive os = Returns VUndef).
Proof.
  split; [apply getRecommendedImage_inv|]. unfold getRecommendedImage.
  intros Hos Hnone. rewrite (prop_field_object _ _ Hos). cbn [mbind result_bind].
  unfold maxBy. destruct (field os "images") as [| | | | |l|] eqn:Hl; try done.
  specialize (Hnone l). clear Hl.
  assert (∀ computed res,
    baseExtremum baseGt
      (λ image, if isDriveSizeRecommended constraints drive image
                then prop image "recommendedDriveSize" else Returns VUndef)
      l computed res = Returns res) as H; [|apply H].
  induction l as [|image l IH]; intros computed res; cbn; [done|].
  rewrite (Hnone image) by (by constructor || by left). cbn.
  apply IH. intros image' ? Hin. apply Hnone; [done|by right].
Qed.

(** The loop of [_.maxBy] when the keys that are kept are numbers and the
    comparator is [>] on them. *)
Lemma baseExtremum_largest (iteratee : value → result value) (array : list value) :
  (∀ x y, baseGt (VNum (Num x)) (VNum (Num y)) = (y <? x)%Z) →
  Forall (λ v, iteratee v = Returns VUndef ∨ ∃ z, iteratee v = Returns (VNum (Num z)))
         array →
  ∀ (computed : option Z) (res : value),
    ∃ r, baseExtremum baseGt iteratee array (VNum ∘ Num <$> computed) res = Returns r
         ∧ ((r = res
             ∧ ∀ v z, v ∈ array → iteratee v = Returns (VNum (Num z)) →
                      ∃ c, computed = Some c ∧ (z ≤ c)%Z)
            ∨ ∃ l1 l2 z,
                array = l1 ++ r :: l2
                ∧ iteratee r = Returns (VNum (Num z))
                ∧ (∀ c, computed = Some c → (c < z)%Z)
                ∧ (∀ v z', v ∈ l1 → iteratee v = Returns (VNum (Num z')) → (z' < z)%Z)
                ∧ (∀ v z', v ∈ l2 → iteratee v = Returns (VNum (Num z')) → (z' ≤ z)%Z)).
Proof.
  intros Hgt. induction 1 as [|v rest Hv _ IH]; intros computed res.
  - exists res. split; [done|]. left. split; [done|]. intros v z Hin. by inversion Hin.
  - cbn [baseExtremum]. destruct Hv as [Hv|[z Hv]]; rewrite Hv; cbn [mbind result_bind].
    + cbn. destruct (IH computed res) as (r & Hr & Hcases). exists r. split; [done|].
      destruct Hcases as [[-> Hall]|(l1 & l2 & z & -> & Hz & Hc & H1 & H2)].
      * left. split; [done|]. intros v' z [<-|Hin]%elem_of_cons Hv';
          [congruence|by eapply Hall].
      * right. exists (v :: l1), l2, z. split_and!; try done.
        intros v' z' [<-|Hin]%elem_of_cons Hv'; [congruence|by eapply H1].
    + cbn [isUndefined isNull orb negb andb] in *.
      destruct computed as [c|]; cbn [fmap option_fmap option_map compose] in *.
      * rewrite Hgt. destruct (Z.ltb_spec c z) as [Hlt|Hge].
        -- destruct (IH (Some z) v) as (r & Hr & Hcases). exists r. split; [done|].
           right. destruct Hcases as [[-> Hall]|(l1 & l2 & z0 & -> & Hz & Hc & H1 & H2)].
           ++ exists [], rest, z. split_and!; try done.
              ** by intros ? [= <-].
              ** intros v' z' Hin. by inversion Hin.
              ** intros v' z' Hin Hv'. destruct (Hall _ _ Hin Hv') as (? & [= <-] & ?).
                 done.
           ++ specialize (Hc _ eq_refl). exists (v :: l1), l2, z0. split_and!; try done.
              ** intros ? [= <-]. lia.
              ** intros v' z' [<-|Hin]%elem_of_cons Hv'; [|by eapply H1].
                 rewrite Hv in Hv'. injection Hv' as <-. lia.
        -- destruct (IH (Some c) res) as (r & Hr & Hcases). exists r. split; [done|].
           destruct Hcases as [[-> Hall]|(l1 & l2 & z0 & -> & Hz & Hc & H1 & H2)].
           ++ left. split; [done|]. intros v' z' [<-|Hin]%elem_of_cons Hv'.
              ** rewrite Hv in Hv'. injection Hv' as <-. eauto.
              ** by eapply Hall.
           ++ right. specialize (Hc _ eq_refl) as Hc'.
              exists (v :: l1), l2, z0. split_and!; try done.
              intros v' z' [<-|Hin]%elem_of_cons Hv'; [|by eapply H1].
              rewrite Hv in Hv'. injection Hv' as <-. lia.
      * destruct (IH (Some z) v) as (r & Hr & Hcases). exists r. split; [done|].
        right. destruct Hcases as [[-> Hall]|(l1 & l2 & z0 & -> & Hz & Hc & H1 & H2)].
        -- exists [], rest, z. split_and!; try done.
           ++ intros v' z' Hin. by inversion Hin.
           ++ intros v' z' Hin Hv'. destruct (Hall _ _ Hin Hv') as (? & [= <-] & ?).
              done.
        -- specialize (Hc _ eq_refl). exists (v :: l1), l2, z0. split_and!; try done.
           intros v' z' [<-|Hin]%elem_of_cons Hv'; [|by eapply H1].
           rewrite Hv in Hv'. injection Hv' as <-. lia.
Qed.

(** X2.  With a comparator that is [>] on numbers, and images whose
    [recommendedDriveSize] is a number whenever the drive is size-recommended
    for them: if some image is size-recommended, [getRecommendedImage]
    returns the first of the size-recommended images with the largest
    [recommendedDriveSize]. *)
Theorem getRecommendedImage_largest (drive os : value) (l : list value) :
  (∀ x y, baseGt (VNum (Num x)) (VNum (Num y)) = (y <? x)%Z) →
  isObject os = true →
  field os "images" = VArr l →
  (∀ image, image ∈ l → isDriveSizeRecommended constraints drive image = true →
            ∃ z, prop image "recommendedDriveSize" = Returns (VNum (Num z))) →
  (∃ image, image ∈ l ∧ isDriveSizeRecommended constraints drive image = true) →
  ∃ l1 r l2 z,
    getRecommendedImage constraints baseGt drive os = Returns r
    ∧ l = l1 ++ r :: l2
    ∧ isDriveSizeRecommended constraints drive r = true
    ∧ prop r "recommendedDriveSize" = Returns (VNum (Num z))
    ∧ (∀ image z', image ∈ l1 →
         isDriveSizeRecommended constraints drive image = true →
         prop image "recommendedDriveSize" = Returns (VNum (Num z')) → (z' < z)%Z)
    ∧ (∀ image z', image ∈ l2 →
         isDriveSizeRecommended constraints drive image = true →
         prop image "recommendedDriveSize" = Returns (VNum (Num z')) → (z' ≤ z)%Z).
Proof.
  intros Hgt Hos Hl Hnum (image0 & Hin0 & Hrec0).
  unfold getRecommendedImage. rewrite (prop_field_object _ _ Hos), Hl.
  cbn [mbind result_bind maxBy].
  set (iteratee := λ image : value,
         if isDriveSizeRecommended constraints drive image
         then prop image "recommendedDriveSize" else Returns VUndef).
  assert (Forall (λ v, iteratee v = Returns VUndef
                       ∨ ∃ z, iteratee v = Returns (VNum (Num z))) l) as Hall.
  { apply Forall_forall. intros image Hin. unfold iteratee.
    destruct (isDriveSizeRecommended constraints drive image) eqn:Hrec; [|by left].
    right. by apply Hnum. }
  destruct (baseExtremum_largest iteratee l Hgt Hall None VUndef)
    as (r & Hr & [[_ Hnone]|(l1 & l2 & z & -> & Hz & _ & H1 & H2)]).
  - destruct (Hnum _ Hin0 Hrec0) as [z0 Hz0].
    destruct (Hnone image0 z0 Hin0) as (c & [=] & _).
    unfold iteratee. by rewrite Hrec0.
  - exists l1, r, l2, z. unfold iteratee in Hz.
    destruct (isDriveSizeRecommended constraints drive r) eqn:Hrec; [|done].
    split_and!; try done.
    + intros image z' Hin Hrec' Hsize. apply (H1 image); [done|].
      unfold iteratee. by rewrite Hrec'.
    + intros image z' Hin Hrec' Hsize. apply (H2 image); [done|].
      unfold iteratee. by rewrite Hrec'.
Qed.

End Recommended.

(** ** Removing a selection *)

Section Removing.

Variable constraints : Constraints.
Variable baseGt : value → value → bool.

Lemma deleteSelection_twice (s : State) (key : string) :
  deleteSelection (deleteSelection s key) key = deleteSelection s key.
Proof.
  unfold deleteSelection, set_selection. cbn. f_equal. apply delete_delete_eq.
Qed.

Lemma case_REMOVE_OS_twice (s s' : State) :
  case_REMOVE_OS s = Returns s' → case_REMOVE_OS s' = Returns s'.
Proof.
  rewrite !case_REMOVE_OS_Returns. intros [= <-]. f_equal.
  unfold getSelection, get.
  destruct (truthy (default VUndef (selection s !! "image"))) eqn:Himage;
    cbn [selection deleteSelection set_selection].
  - rewrite lookup_delete_ne, lookup_delete_eq by done. cbn [default truthy].
    apply deleteSelection_twice.
  - rewrite lookup_delete_ne by done. rewrite Himage. apply deleteSelection_twice.
Qed.

Lemma case_REMOVE_DRIVE_twice (s s' : State) :
  case_REMOVE_DRIVE s = Returns s' → case_REMOVE_DRIVE s' = Returns s'.
Proof.
  rewrite !case_REMOVE_DRIVE_Returns. intros [= <-]. f_equal.
  unfold getSelection, get.
  destruct (truthy (default VUndef (selection s !! "os"))) eqn:Hos;
    cbn [selection deleteSelection set_selection].
  - rewrite !lookup_delete_ne by done. rewrite Hos.
    unfold deleteSelection, set_selection. cbn [selection availableDrives isFlashing
      flashResults flashState settings]. f_equal.
    by rewrite (delete_delete (delete "image" (selection s)) "image" "drive"),
      !delete_delete_eq.
  - rewrite lookup_delete_ne by done. rewrite Hos. apply deleteSelection_twice.
Qed.

(** X3.  [REMOVE_IMAGE], [REMOVE_OS] and [REMOVE_DRIVE] never throw, whatever
    the state and the data of the action, and dispatching one of them a second
    time changes nothing more. *)
Theorem removals_are_idempotent (state : State) (k : kind) (d d' : value) :
  k = REMOVE_IMAGE ∨ k = REMOVE_OS ∨ k = REMOVE_DRIVE →
  ∃ s', storeReducer constraints baseGt (Some state) (act k d) = Returns (St s')
        ∧ storeReducer constraints baseGt (Some s') (act k d') = Returns (St s').
Proof.
  intros [->|[->| ->]].
  - exists (deleteSelection state "image"). rewrite !storeReducer_act.
    unfold case_REMOVE_IMAGE, returns. cbn. by rewrite deleteSelection_twice.
  - destruct (case_REMOVE_OS state) as [s'|] eqn:Hs';
      [|by rewrite case_REMOVE_OS_Returns in Hs'].
    exists s'. rewrite !storeReducer_act, Hs', (case_REMOVE_OS_twice _ _ Hs'). done.
  - destruct (case_REMOVE_DRIVE state) as [s'|] eqn:Hs';
      [|by rewrite case_REMOVE_DRIVE_Returns in Hs'].
    exists s'. rewrite !storeReducer_act, Hs', (case_REMOVE_DRIVE_twice _ _ Hs'). done.
Qed.

(** X4.  [REMOVE_OS] clears the operating system, clears the image when one
    is selected and leaves the drive; [REMOVE_DRIVE] clears the drive, clears
    the image when an operating system is selected and leaves the operating
    system.  Neither touches anything outside [selection]. *)
Theorem removals_cascade_to_the_image (state : State) (d : value) :
  (∃ s', storeReducer constraints baseGt (Some state) (act REMOVE_OS d) = Returns (St s')
         ∧ selection s' !! "os" = None
         ∧ selection s' !! "image"
           = (if truthy (getSelection state "image") then None
              else selection state !! "image")
         ∧ selection s' !! "drive" = selection state !! "drive"
         ∧ availableDrives s' = availableDrives state ∧ same_rest state s')
  ∧ (∃ s', storeReducer constraints baseGt (Some state) (act REMOVE_DRIVE d)
           = Returns (St s')
           ∧ selection s' !! "drive" = None
           ∧ selection s' !! "image"
             = (if truthy (getSelection state "os") then None
                else selection state !! "image")
           ∧ selection s' !! "os" = selection state !! "os"
           ∧ availableDrives s' = availableDrives state ∧ same_rest state s').
Proof.
  rewrite !storeReducer_act, case_REMOVE_OS_Returns, case_REMOVE_DRIVE_Returns.
  split; (eexists; split; [done|]); unfold deleteSelection, set_selection.
  - destruct (truthy (getSelection state "image")); cbn [selection availableDrives];
      lookups; by repeat split.
  - destruct (truthy (getSelection state "os")); cbn [selection availableDrives];
      lookups; by repeat split.
Qed.

End Removing.

(** ** Selecting an image *)

Section SelectingImage.

Variable constraints : Constraints.
Variable baseGt : value → value → bool.

Lemma optionalString_Returns (data : value) (k msg : string) :
  isObject data = true →
  optionalString data k msg = Returns () ↔ optionalStringOk data k = true.
Proof.
  intros Hobj. unfold optionalString, optionalStringOk.
  rewrite (prop_field_object _ _ Hobj). cbn [mbind result_bind].
  destruct (truthy (field data k)), (isString (field data k)); cbn; split; done.
Qed.

Lemma case_SELECT_IMAGE_validImage (s : State) (data : value) (s' : State) :
  case_SELECT_IMAGE constraints s data = Returns s' → validImage data = true.
Proof.
  unfold case_SELECT_IMAGE. intros H.
  apply bind_Returns in H as (path & Hpath & H).
  destruct (truthy path) eqn:Hpath1; [|done].
  pose proof (prop_truthy_object _ _ _ Hpath Hpath1) as Hobj.
  rewrite (prop_field_object _ _ Hobj) in Hpath. injection Hpath as <-.
  cbn [negb] in H. destruct (isString (field data "path")) eqn:Hpath2; [|done].
  cbn [negb] in H. rewrite (prop_field_object _ _ Hobj) in H.
  cbn [mbind result_bind] in H.
  destruct (truthy (field data "size")) eqn:Hsize1; [|done].
  destruct (isNumber (field data "size")) eqn:Hsize2; [|done].
  cbn [negb] in H.
  repeat (apply bind_Returns in H as ([] & ?%optionalString_Returns & H); [|done]).
  unfold validImage. rewrite Hobj, Hpath1, Hpath2, Hsize1, Hsize2.
  by repeat (apply andb_true_iff; split).
Qed.

Lemma case_SELECT_IMAGE_valid (s : State) (data : value) :
  validImage data = true →
  case_SELECT_IMAGE constraints s data =
  Returns (setSelection
             (if truthy (getSelection s "os") || driveStays constraints s data
              then s else deleteSelection s "drive")
             "image" data).
Proof.
  unfold validImage. rewrite !andb_true_iff.
  intros ((((((((((Hobj & Hp1) & Hp2) & Hs1) & Hs2) & H1) & H2) & H3) & H4) & H5) & H6).
  unfold case_SELECT_IMAGE. rewrite !(prop_field_object _ _ Hobj).
  cbn [mbind result_bind]. rewrite Hp1, Hp2, Hs1, Hs2. cbn [negb].
  rewrite !(proj2 (optionalString_Returns _ _ _ Hobj)) by done.
  cbn [mbind result_bind]. unfold driveStays.
  destruct (truthy (getSelection s "os")) eqn:Hos; cbn [negb orb]; [done|].
  destruct (findDrive s (getSelection s "drive")) as [selectedDrive|]; [|done].
  destruct (isDriveValid _ _ _ _ && isDriveSizeRecommended _ _ _); cbn [negb]; [done|].
  rewrite case_REMOVE_DRIVE_Returns, Hos. done.
Qed.

(** X5.  [SELECT_IMAGE] succeeds exactly on the images that pass its
    validation, whatever the state.  It then stores the image as it came,
    keeps the operating system and everything outside [selection], and keeps
    the selected drive when an operating system is selected or when the drive
    is valid and size-recommended for the image; otherwise it clears the
    selected drive. *)
Theorem SELECT_IMAGE_accepts_exactly_the_valid_images (state : State) (data : value) :
  (validImage data = false →
   ∃ e, storeReducer constraints baseGt (Some state) (act SELECT_IMAGE data) = Throws e)
  ∧ (validImage data = true →
     ∃ s', storeReducer constraints baseGt (Some state) (act SELECT_IMAGE data)
           = Returns (St s')
           ∧ selection s' !! "image" = Some data
           ∧ selection s' !! "os" = selection state !! "os"
           ∧ selection s' !! "drive"
             = (if truthy (getSelection state "os") || driveStays constraints state data
                then selection state !! "drive" else None)
           ∧ availableDrives s' = availableDrives state
           ∧ same_rest state s').
Proof.
  rewrite storeReducer_act. split.
  - intros Hinvalid. destruct (case_SELECT_IMAGE constraints state data) as [s'|e] eqn:H.
    + apply case_SELECT_IMAGE_validImage in H. congruence.
    + by exists e.
  - intros Hvalid. rewrite (case_SELECT_IMAGE_valid _ _ Hvalid).
    eexists. split; [done|]. unfold setSelection, deleteSelection, set_selection.
    destruct (truthy (getSelection state "os") || driveStays constraints state data);
      cbn [selection availableDrives];
      lookups; by repeat split.
Qed.

End SelectingImage.

(** ** Selecting a drive *)

Section SelectingDrive.

Variable constraints : Constraints.
Variable baseGt : value → value → bool.

Lemma getSelection_unset (s : State) (k : string) :
  selection s !! k = None → getSelection s k = VUndef.
Proof. unfold getSelection, get. by intros ->. Qed.

Lemma findDrive_None (s : State) (dev : string) :
  (∀ drive, drive ∈ availableDrives s → get drive "device" ≠ VStr dev) →
  findDrive s (VStr dev) = None.
Proof.
  intros Hnone. destruct (findDrive s (VStr dev)) as [drive|] eqn:Hfind; [|done].
  apply findDrive_Some in Hfind as [Hin Hdevice].
  destruct (Hnone _ Hin). unfold get. by rewrite Hdevice.
Qed.

(** X6.  The refusals of [SELECT_DRIVE], in the order of its tests: no
    device, a device that is not a string, a device that no available drive
    has, a matched drive that is write-protected, and, when no operating
    system is selected, a selected image for which the drive is not large
    enough. *)
Theorem SELECT_DRIVE_rejections (state : State) (d : value) :
  (truthy d = false →
   storeReducer constraints baseGt (Some state) (act SELECT_DRIVE d)
   = Throws (Error "Missing drive"))
  ∧ (truthy d = true → isString d = false →
     storeReducer constraints baseGt (Some state) (act SELECT_DRIVE d)
     = Throws (ErrorOf "Invalid drive: " d))
  ∧ (∀ dev, d = VStr dev → dev ≠ "" →
       (∀ drive, drive ∈ availableDrives state → get drive "device" ≠ VStr dev) →
       storeReducer constraints baseGt (Some state) (act SELECT_DRIVE d)
       = Throws (ErrorOf "The drive is not available: " d))
  ∧ (∀ dev drive, d = VStr dev → dev ≠ "" →
       findDrive state d = Some drive →
       truthy (get drive "protected") = true →
       storeReducer constraints baseGt (Some state) (act SELECT_DRIVE d)
       = Throws (Error "The drive is write-protected"))
  ∧ (∀ dev drive image, d = VStr dev → dev ≠ "" →
       findDrive state d = Some drive →
       truthy (get drive "protected") = false →
       selection state !! "os" = None →
       selection state !! "image" = Some image → isObject image = true →
       isDriveLargeEnough constraints (VObj drive) image = false →
       storeReducer constraints baseGt (Some state) (act SELECT_DRIVE d)
       = Throws (Error "The drive is not large enough")).
Proof.
  rewrite storeReducer_act. unfold case_SELECT_DRIVE. split_and!.
  - by intros ->.
  - by intros -> ->.
  - intros dev -> Hdev%truthy_VStr Hnone. rewrite Hdev. cbn [negb isString].
    by rewrite (findDrive_None _ _ Hnone).
  - intros dev drive -> Hdev%truthy_VStr Hfind Hprotected. rewrite Hdev.
    cbn [negb isString]. by rewrite Hfind, Hprotected.
  - intros dev drive image -> Hdev%truthy_VStr Hfind Hprotected Hos Himage Hobj Hsmall.
    rewrite Hdev. cbn [negb isString]. rewrite Hfind, Hprotected.
    unfold getSelectionOr. rewrite Hos. cbn.
    rewrite (getSelection_Some _ _ _ Himage), (isObject_truthy _ Hobj).
    rewrite (proj2 (toJS_Returns image image)) by done. cbn. by rewrite Hsmall.
Qed.

Lemma case_SELECT_DRIVE_inv (state : State) (d : value) (s' : State) :
  case_SELECT_DRIVE constraints state d = Returns s' →
  ∃ dev drive,
    d = VStr dev ∧ dev ≠ ""
    ∧ findDrive state d = Some drive
    ∧ drive ∈ availableDrives state ∧ get drive "device" = VStr dev
    ∧ truthy (get drive "protected") = false
    ∧ selection s' !! "drive" = Some (VStr dev)
    ∧ selection s' !! "os" = selection state !! "os"
    ∧ imageStep state s'
    ∧ availableDrives s' = availableDrives state
    ∧ same_rest state s'.
Proof.
  intros H.
  pose proof (case_SELECT_DRIVE_frame _ _ _ _ H) as [Hdrives Hrest].
  unfold case_SELECT_DRIVE in H.
  destruct (truthy d) eqn:Htruthy; [|done]. cbn [negb] in H.
  destruct d as [| | | |dev| |]; try done. cbn [isString negb] in H.
  apply truthy_VStr in Htruthy.
  destruct (findDrive state (VStr dev)) as [drive|] eqn:Hfind; [|done].
  pose proof (findDrive_Some _ _ _ Hfind) as [Hin Hdevice].
  destruct (truthy (get drive "protected")) eqn:Hprotected; [done|].
  exists dev, drive. split_and!; try done.
  { unfold get. by rewrite Hdevice. }
  all: returned H; subst; unfold imageStep, setSelection, set_selection;
    cbn [selection]; lookups; auto.
  all: apply attempted_setSelection_Returns in H as (s1 & H & ->);
    apply bind_Returns in H as (payload & _ & H);
    pose proof (case_SELECT_IMAGE_validImage _ _ _ _ H) as Hvalid;
    rewrite (case_SELECT_IMAGE_valid _ _ _ Hvalid) in H; injection H as <-;
    unfold setSelection, deleteSelection, set_selection;
    destruct (_ || _); cbn [selection]; lookups; eauto.
Qed.


(** X8.  [SELECT_DRIVE] on an available drive that is not write-protected:
    with no operating system selected it selects the drive and changes
    nothing else, provided the drive is large enough for the selected image
    if there is one; with an operating system selected and no recommended
    image on the drive it selects the drive and changes nothing else; with a
    recommended image whose cascaded payload [SELECT_IMAGE] accepts, it
    selects the drive and that payload as the image. *)
Theorem SELECT_DRIVE_selects (state : State) (dev : string) (drive : gmap string value) :
  dev ≠ "" →
  findDrive state (VStr dev) = Some drive →
  truthy (get drive "protected") = false →
  (selection state !! "os" = None →
   (selection state !! "image" = None
    ∨ ∃ image, selection state !! "image" = Some image ∧ isObject image = true
               ∧ isDriveLargeEnough constraints (VObj drive) image = true) →
   storeReducer constraints baseGt (Some state) (act SELECT_DRIVE (VStr dev))
   = Returns (St (setSelection state "drive" (VStr dev))))
  ∧ (∀ os, selection state !! "os" = Some os → isObject os = true → isEmpty os = false →
       truthy (get drive "recommendedImage") = false →
       storeReducer constraints baseGt (Some state) (act SELECT_DRIVE (VStr dev))
       = Returns (St (setSelection state "drive" (VStr dev))))
  ∧ (∀ os payload,
       selection state !! "os" = Some os → isObject os = true → isEmpty os = false →
       truthy (get drive "recommendedImage") = true →
       recommendedImagePayload (get drive "recommendedImage") os = Returns payload →
       validImage payload = true →
       storeReducer constraints baseGt (Some state) (act SELECT_DRIVE (VStr dev))
       = Returns (St (setSelection (setSelection state "image" payload)
                                   "drive" (VStr dev)))).
Proof.
  intros Hdev Hfind Hprotected. rewrite storeReducer_act. split_and!.
  - intros Hos Himage. unfold case_SELECT_DRIVE.
    rewrite (proj2 (truthy_VStr _) Hdev). cbn [negb isString].
    rewrite Hfind, Hprotected. unfold getSelectionOr. rewrite Hos. cbn.
    destruct Himage as [Himage|(image & Himage & Hobj & Hlarge)].
    + by rewrite (getSelection_unset _ _ Himage).
    + rewrite (getSelection_Some _ _ _ Himage), (isObject_truthy _ Hobj).
      rewrite (proj2 (toJS_Returns image image)) by done. cbn. by rewrite Hlarge.
  - intros os Hos Hobj Hempty Himage. unfold case_SELECT_DRIVE.
    rewrite (proj2 (truthy_VStr _) Hdev). cbn [negb isString].
    rewrite Hfind, Hprotected, (getSelectionOr_Some _ _ _ _ Hos).
    rewrite (proj2 (toJS_Returns os os)) by done. cbn [mbind result_bind].
    by rewrite Hempty, Himage.
  - intros os payload Hos Hobj Hempty Himage Hpayload Hvalid.
    rewrite (case_SELECT_DRIVE_cascade _ _ _ _ _ Hdev Hfind Hprotected Hos Hobj Hempty Himage).
    rewrite Hpayload. cbn [mbind result_bind].
    rewrite (case_SELECT_IMAGE_valid _ _ _ Hvalid).
    by rewrite (getSelection_Some _ _ _ Hos), (isObject_truthy _ Hobj).
Qed.

End SelectingDrive.

(** ** The available drives *)

Section AvailableDrives.

Variable constraints : Constraints.
Variable baseGt : value → value → bool.

Lemma getSelectionOr_unset (s : State) (k : string) (notSet : value) :
  selection s !! k = None → getSelectionOr s k notSet = notSet.
Proof. unfold getSelectionOr. by intros ->. Qed.

Lemma plainObjects_Some (data : value) (drives : list (gmap string value)) :
  plainObjects data = Some drives → data = VArr (VObj <$> drives).
Proof.
  destruct data as [| | | | |l|]; try done. cbn. intros H%mapM_Some. f_equal.
  induction H as [|v o l drives Hv _ IH]; [done|].
  destruct v; try done. injection Hv as ->. cbn. by rewrite IH.
Qed.

Lemma case_SET_AVAILABLE_DRIVES_collectionsOk (s : State) (data : value) (s' : State) :
  case_SET_AVAILABLE_DRIVES constraints baseGt s data = Returns s' → collectionsOk s.
Proof.
  unfold case_SET_AVAILABLE_DRIVES. intros H.
  destruct (truthy data); [|done]. cbn [negb] in H.
  destruct (plainObjects data); [|done].
  apply bind_Returns in H as (os & (_ & _ & Hos)%toJS_collection & H).
  apply bind_Returns in H as (image & (_ & _ & Him)%toJS_collection & H).
  by split.
Qed.

Lemma annotate_annotated (os : value) (drive drive' : gmap string value) :
  annotate constraints baseGt os drive = Returns drive' →
  annotated constraints os drive drive'.
Proof.
  unfold annotate. intros (rec & Hrec & [= <-])%bind_Returns.
  destruct (truthy rec) eqn:Htruthy; [|by split; [|left]].
  split; [by intros k Hk; rewrite lookup_insert_ne|].
  right. apply getRecommendedImage_inv in Hrec
    as [->|(l & size & Hl & Hin & Hrecommended & _)]; [done|].
  exists rec, l. by rewrite lookup_insert_eq.
Qed.

Lemma annotate_without_images (os : value) (drives : list (gmap string value)) :
  isObject os = true → (∀ l, field os "images" ≠ VArr l) →
  mapM (annotate constraints baseGt os) drives = Returns drives.
Proof.
  intros Hos Himages. apply mapM_Returns.
  induction drives as [|drive drives IH]; constructor; [|done].
  unfold annotate, getRecommendedImage. rewrite (prop_field_object _ _ Hos).
  cbn [mbind result_bind]. unfold maxBy.
  destruct (field os "images") eqn:Hfield; try done. by destruct (Himages l).
Qed.

(** What [SET_AVAILABLE_DRIVES] returns has the annotated drives as its
    available drives, whichever branch it takes. *)
Lemma case_SET_AVAILABLE_DRIVES_availableDrives (s : State)
    (drives : list (gmap string value)) (s' : State) :
  case_SET_AVAILABLE_DRIVES constraints baseGt s (VArr (VObj <$> drives)) = Returns s' →
  mapM (annotate constraints baseGt (getSelectionOr s "os" (VObj ∅))) drives
  = Returns (availableDrives s')
  ∧ selection s' !! "os" = selection s !! "os"
  ∧ same_rest s s'.
Proof.
  intros H. pose proof (case_SET_AVAILABLE_DRIVES_collectionsOk _ _ _ H) as Hc.
  pose proof (case_SET_AVAILABLE_DRIVES_frame _ _ _ _ _ H) as Hrest.
  rewrite case_SET_AVAILABLE_DRIVES_objects in H by done.
  apply bind_Returns in H as (drives' & Hmap & H). rewrite Hmap. cbv zeta in H.
  assert (∀ s0,
    (if truthy (getSelection s "drive")
        && negb (existsb (λ drive, strict_eq (get drive "device") (getSelection s "drive"))
                         drives')
     then case_REMOVE_DRIVE (set_availableDrives s drives')
     else Returns (set_availableDrives s drives')) = Returns s0 →
    availableDrives s0 = drives' ∧ selection s0 !! "os" = selection s !! "os") as Hcase.
  { intros s0 H0. destruct (_ && _); [|by injection H0 as <-].
    rewrite case_REMOVE_DRIVE_Returns in H0. injection H0 as <-.
    unfold deleteSelection, set_selection. destruct (truthy _); cbn; by lookups. }
  assert (availableDrives s' = drives' ∧ selection s' !! "os" = selection s !! "os")
    as [-> Hos]; [|done].
  destruct drives' as [|drive' [|]]; try by apply Hcase.
  destruct (autoSelectable _ _ _ _); [|by apply Hcase].
  apply case_SELECT_DRIVE_inv in H
    as (? & ? & _ & _ & _ & _ & _ & _ & _ & Hos' & _ & Hdrives' & _).
  done.
Qed.

(** X9.  [SET_AVAILABLE_DRIVES] refuses falsy data as missing, and truthy
    data that is not an array of plain objects as invalid, whatever the
    state. *)
Theorem SET_AVAILABLE_DRIVES_rejections (state : State) (d : value) :
  (truthy d = false →
   storeReducer constraints baseGt (Some state) (act SET_AVAILABLE_DRIVES d)
   = Throws (Error "Missing drives"))
  ∧ (truthy d = true → (∀ drives, d ≠ VArr (VObj <$> drives)) →
     storeReducer constraints baseGt (Some state) (act SET_AVAILABLE_DRIVES d)
     = Throws (ErrorOf "Invalid drives: " d)).
Proof.
  rewrite storeReducer_act. unfold case_SET_AVAILABLE_DRIVES. split.
  - by intros ->.
  - intros -> Hnot. cbn [negb].
    destruct (plainObjects d) as [drives|] eqn:Hdrives; [|done].
    by destruct (Hnot drives (plainObjects_Some _ _ Hdrives)).
Qed.

(** X10.  Whenever [SET_AVAILABLE_DRIVES] returns, the data was an array of
    plain objects and the available drives of the new state are these
    drives, in the same order, each with all its properties as they came
    except that [recommendedImage] may have been set to an entry of the
    images of the selected operating system that is size-recommended for the
    drive.  With no operating system selected the drives are stored as they
    came.  The selected operating system and everything outside [selection]
    and [availableDrives] are kept. *)
Theorem SET_AVAILABLE_DRIVES_annotates (state : State) (d : value) (s' : State) :
  storeReducer constraints baseGt (Some state) (act SET_AVAILABLE_DRIVES d)
  = Returns (St s') →
  ∃ drives,
    d = VArr (VObj <$> drives)
    ∧ Forall2 (annotated constraints (getSelectionOr state "os" (VObj ∅)))
              drives (availableDrives s')
    ∧ (selection state !! "os" = None → availableDrives s' = drives)
    ∧ selection s' !! "os" = selection state !! "os"
    ∧ same_rest state s'.
Proof.
  rewrite storeReducer_act. intros (s0 & H & [= <-])%returns_St.
  assert (∃ drives, d = VArr (VObj <$> drives)) as [drives ->].
  { unfold case_SET_AVAILABLE_DRIVES in H. destruct (truthy d); [|done].
    destruct (plainObjects d) as [drives|] eqn:Hdrives; [|done].
    exists drives. by apply plainObjects_Some. }
  apply case_SET_AVAILABLE_DRIVES_availableDrives in H as (Hmap & Hos & Hrest).
  exists drives. split_and!; try done.
  - apply mapM_Returns in Hmap. eapply Forall2_impl; [done|].
    intros drive drive'. apply annotate_annotated.
  - intros Hnone. rewrite (getSelectionOr_unset _ _ _ Hnone) in Hmap.
    rewrite annotate_without_images in Hmap; [by injection Hmap|done..].
Qed.

(** X11.  A [SET_AVAILABLE_DRIVES] that returns, and whose list is not a
    single drive that passes the auto-selection checks, leaves the whole
    selection as it is when no drive is selected, and when the selected
    device is the device of a drive of the list. *)
Theorem SET_AVAILABLE_DRIVES_keeps_the_selection (state : State)
    (drives : list (gmap string value)) (s' : State) :
  storeReducer constraints baseGt (Some state)
    (act SET_AVAILABLE_DRIVES (VArr (VObj <$> drives))) = Returns (St s') →
  ¬ autoSelects constraints baseGt state drives →
  (selection state !! "drive" = None
   ∨ ∃ dev drive, selection state !! "drive" = Some (VStr dev)
                  ∧ drive ∈ drives ∧ get drive "device" = VStr dev) →
  selection s' = selection state.
Proof.
  rewrite storeReducer_act. intros (s0 & H & [= <-])%returns_St Hauto Hselected.
  pose proof (case_SET_AVAILABLE_DRIVES_collectionsOk _ _ _ H) as Hc.
  pose proof (case_SET_AVAILABLE_DRIVES_availableDrives _ _ _ H) as (Hmap & _ & _).
  rewrite (case_SET_AVAILABLE_DRIVES_rest _ _ _ _ _ Hc Hauto Hmap) in H.
  destruct Hselected as [Hnone|(dev & drive & Hdev & Hin & Hdevice)].
  - rewrite (getSelection_unset _ _ Hnone) in H. by injection H as <-.
  - rewrite (getSelection_Some _ _ _ Hdev) in H.
    assert (existsb (λ drive, strict_eq (get drive "device") (VStr dev))
                    (availableDrives s') = true) as Hexists.
    { apply mapM_Returns in Hmap. apply list_elem_of_lookup in Hin as [i Hi].
      destruct (Forall2_lookup_l _ _ _ _ _ Hmap Hi) as (drive' & Hi' & Hdrive').
      apply existsb_exists. exists drive'. split.
      - apply list_elem_of_In. by eapply list_elem_of_lookup_2.
      - rewrite (annotate_device _ _ _ _ _ Hdrive'), Hdevice. cbn.
        apply String.eqb_refl. }
    rewrite Hexists, andb_false_r in H. by injection H as <-.
Qed.

(** X12.  A [SET_AVAILABLE_DRIVES] with a single drive that passes the
    auto-selection checks returns only with that drive selected: its device
    is then a non-empty string and the drive is not write-protected. *)
Theorem SET_AVAILABLE_DRIVES_selects_a_single_drive (state : State)
    (drive : gmap string value) (s' : State) :
  autoSelects constraints baseGt state [drive] →
  storeReducer constraints baseGt (Some state)
    (act SET_AVAILABLE_DRIVES (VArr (VObj <$> [drive]))) = Returns (St s') →
  ∃ dev, get drive "device" = VStr dev ∧ dev ≠ ""
         ∧ truthy (get drive "protected") = false
         ∧ selection s' !! "drive" = Some (VStr dev).
Proof.
  intros (drive0 & drive' & [= <-] & Hannotate & Hauto).
  rewrite storeReducer_act. intros (s0 & H & [= <-])%returns_St.
  pose proof (case_SET_AVAILABLE_DRIVES_collectionsOk _ _ _ H) as Hc.
  rewrite case_SET_AVAILABLE_DRIVES_objects in H by done.
  assert (mapM (annotate constraints baseGt (getSelectionOr state "os" (VObj ∅))) [drive]
          = Returns [drive']) as Hmap.
  { apply mapM_Returns. by repeat constructor. }
  rewrite Hmap in H. cbn [mbind result_bind] in H. cbv zeta in H. rewrite Hauto in H.
  apply case_SELECT_DRIVE_inv in H
    as (dev & found & Hdevice & Hdev & Hfind & _ & _ & Hprotected & Hselected & _).
  pose proof (annotate_device _ _ _ _ _ Hannotate) as Hsame.
  pose proof (annotate_annotated _ _ _ Hannotate) as [Hkept _].
  exists dev. split_and!; try done; [congruence|].
  unfold findDrive in Hfind. cbn in Hfind.
  destruct (strict_eq _ _); [|done]. injection Hfind as <-.
  unfold get in *. by rewrite <- (Hkept "protected").
Qed.

End AvailableDrives.

(** ** Selecting an operating system *)

Section SelectingOs.

Variable constraints : Constraints.
Variable baseGt : value → value → bool.

(** What [SELECT_OS] computes before it looks at the drive that was
    selected. *)
Lemma case_SELECT_OS_newState (state : State) (d : value) (newState : State) :
  case_SET_AVAILABLE_DRIVES constraints baseGt (setSelection state "os" d)
    (VArr (VObj <$> availableDrives state)) = Returns newState →
  isObject d = true
  ∧ selection newState !! "os" = Some d
  ∧ mapM (annotate constraints baseGt d) (availableDrives state)
    = Returns (availableDrives newState).
Proof.
  intros H. pose proof (case_SET_AVAILABLE_DRIVES_collectionsOk _ _ _ _ _ H) as [Hos _].
  apply case_SET_AVAILABLE_DRIVES_availableDrives in H as (Hmap & Hkept & _).
  unfold getSelectionOr in Hmap. cbn [selection setSelection set_selection] in *.
  rewrite lookup_insert_eq in *. split_and!; [by apply Hos|done..].
Qed.


(** X14.  Whenever [SELECT_OS] returns a state, the data is a collection and
    is the selected operating system of that state; the available drives are
    the former ones, annotated for the new operating system; everything
    outside [selection] and [availableDrives] is kept. *)
Theorem SELECT_OS_selects_the_os (state : State) (d : value) (s' : State) :
  storeReducer constraints baseGt (Some state) (act SELECT_OS d) = Returns (St s') →
  isObject d = true
  ∧ selection s' !! "os" = Some d
  ∧ Forall2 (annotated constraints d) (availableDrives state) (availableDrives s')
  ∧ same_rest state s'.
Proof.
  rewrite storeReducer_act. intros H.
  pose proof (case_SELECT_OS_frame _ _ _ _ _ H) as Hrest.
  unfold case_SELECT_OS in H. destruct (truthy d); [|done]. cbn [negb] in H.
  apply bind_Returns in H as (newState & Hnew & H).
  apply case_SELECT_OS_newState in Hnew as (Hobj & Hos & Hmap).
  assert (Forall2 (annotated constraints d) (availableDrives state)
                  (availableDrives newState)) as Hannotated.
  { apply mapM_Returns in Hmap. eapply Forall2_impl; [done|].
    intros drive drive'. apply annotate_annotated. }
  destruct (findDrive _ _) as [selectedDrive|]; [|by simplify_eq].
  injection H as H.
  destruct (getRecommendedImage _ _ _ _) as [rec|]; [|done].
  cbn [mbind result_bind] in H. destruct (negb (truthy rec)).
  - rewrite case_REMOVE_DRIVE_Returns in H. injection H as <-.
    split_and!; try done.
    + unfold deleteSelection, set_selection. destruct (truthy _); cbn [selection];
        by lookups.
    + by destruct (truthy _).
  - destruct (case_SELECT_DRIVE _ _ _) as [s0|] eqn:Hselect; [|done].
    injection H as <-.
    apply case_SELECT_DRIVE_inv in Hselect
      as (? & ? & _ & _ & _ & _ & _ & _ & _ & Hos' & _ & Hdrives & _).
    split_and!; try done; congruence.
Qed.

(** X15.  When the drive that was selected has no recommended image under
    the new operating system, a [SELECT_OS] that returns gives a state in
    which neither a drive nor an image is selected. *)
Theorem SELECT_OS_drops_a_drive_without_image (state : State) (d : value)
    (selectedDrive : gmap string value) (rec : value) (r : returned) :
  findDrive state (getSelection state "drive") = Some selectedDrive →
  getRecommendedImage constraints baseGt (VObj selectedDrive) d = Returns rec →
  truthy rec = false →
  storeReducer constraints baseGt (Some state) (act SELECT_OS d) = Returns r →
  ∃ s', r = St s'
        ∧ selection s' !! "os" = Some d
        ∧ selection s' !! "drive" = None
        ∧ selection s' !! "image" = None.
Proof.
  intros Hfind Hrec Hnone. rewrite storeReducer_act. unfold case_SELECT_OS.
  destruct (truthy d); [|done]. cbn [negb].
  intros (newState & Hnew & H)%bind_Returns.
  apply case_SELECT_OS_newState in Hnew as (Hobj & Hos & _).
  rewrite Hfind, Hrec in H. cbn [mbind result_bind] in H. rewrite Hnone in H.
  cbn [negb] in H. rewrite case_REMOVE_DRIVE_Returns in H. injection H as <-.
  rewrite (getSelection_Some _ _ _ Hos), (isObject_truthy _ Hobj).
  eexists. split; [done|]. unfold deleteSelection, set_selection.
  cbn [attempt selection]. by lookups.
Qed.

End SelectingOs.

(** ** The flash and the settings *)

Section FlashAndSettings.

Variable constraints : Constraints.
Variable baseGt : value → value → bool.

(** What any action does to the fields of the state, by the kind of the
    action: the selection actions keep the four other fields, and the other
    actions keep [availableDrives] and [selection]. *)
Lemma storeReducer_frames (state : State) (a : action) (s' : State) :
  storeReducer constraints baseGt (Some state) a = Returns (St s') →
  match kind_of (type a) with
  | Some (SET_FLASH_STATE | RESET_FLASH_STATE | SET_FLASHING_FLAG
         | UNSET_FLASHING_FLAG | SET_SETTING) =>
      availableDrives s' = availableDrives state ∧ selection s' = selection state
  | Some _ => same_rest state s'
  | None => s' = state
  end.
Proof.
  unfold storeReducer. cbn [default]. intros H.
  destruct (kind_of (type a)) as [[]|];
    try (apply returns_St in H as (s0 & H & [= <-])).
  - by eapply case_SET_AVAILABLE_DRIVES_frame.
  - unfold case_SET_FLASH_STATE in H. returned H. by subst.
  - by injection H as <-.
  - by injection H as <-.
  - unfold case_UNSET_FLASHING_FLAG in H. returned H. by subst.
  - by eapply case_SELECT_OS_frame.
  - by eapply case_SELECT_DRIVE_frame.
  - by eapply case_SELECT_IMAGE_frame.
  - rewrite case_REMOVE_OS_Returns in H. injection H as <-. by destruct (truthy _).
  - by eapply case_REMOVE_DRIVE_frame.
  - by injection H as <-.
  - unfold case_SET_SETTING in H. returned H. by subst.
  - by injection H as <-.
Qed.

(** X16.  The seven actions on the selection and the drives never change
    [isFlashing], [flashState], [flashResults] or the settings; the four
    flash actions and [SET_SETTING] never change the selection or the
    available drives. *)
Theorem selection_and_flash_are_independent (state : State) (k : kind) (d : value)
    (s' : State) :
  storeReducer constraints baseGt (Some state) (act k d) = Returns (St s') →
  (k ∈ [SET_AVAILABLE_DRIVES; SELECT_OS; SELECT_DRIVE; SELECT_IMAGE;
        REMOVE_OS; REMOVE_DRIVE; REMOVE_IMAGE] →
   same_rest state s')
  ∧ (k ∈ [SET_FLASH_STATE; RESET_FLASH_STATE; SET_FLASHING_FLAG;
          UNSET_FLASHING_FLAG; SET_SETTING] →
     availableDrives s' = availableDrives state ∧ selection s' = selection state).
Proof.
  intros H%storeReducer_frames. cbn [act type] in H. rewrite kind_of_message in H.
  split; intros Hk; destruct k; try done; exfalso; clear H;
    repeat (apply elem_of_cons in Hk as [Hk|Hk]; [discriminate Hk|]);
    by apply elem_of_nil in Hk.
Qed.

Lemma storeReducer_flashOk (state : State) (a : action) (s' : State) :
  storeReducer constraints baseGt (Some state) a = Returns (St s') →
  flashOk state → flashOk s'.
Proof.
  intros H [Hidle Hbusy]. pose proof (storeReducer_frames _ _ _ H) as Hframe.
  unfold storeReducer in H. cbn [default from_option id] in H.
  destruct (kind_of (type a)) as [[]|];
    try (destruct Hframe as (Hf & Hr & Hs & _); split; rewrite Hf, ?Hr, ?Hs; done);
    try (subst; by split);
    apply returns_St in H as (s0 & H & [= <-]).
  - unfold case_SET_FLASH_STATE in H.
    destruct (isFlashing state) eqn:Hflashing; [|by cbn in H]. cbn [negb] in H.
    returned H. subst. split; cbn; rewrite Hflashing; [done|].
    intros _. by apply Hbusy.
  - injection H as <-. by split.
  - injection H as <-. by split.
  - unfold case_UNSET_FLASHING_FLAG in H. returned H. subst. by split.
  - unfold case_SET_SETTING in H. returned H. subst. by split.
Qed.

(** X17.  In every state of the store, progress ([flashState]) is at its
    default whenever no flash is going on, and there are no results
    ([flashResults]) whenever one is. *)
Theorem flash_fields_follow_isFlashing (s : State) :
  reachable constraints baseGt s → flashOk s.
Proof.
  induction 1 as [|subset|s a s' _ IH Hstep].
  - by split.
  - by split.
  - by eapply storeReducer_flashOk.
Qed.

Lemma case_SET_SETTING_inv (state : State) (d : value) (s' : State) :
  case_SET_SETTING state d = Returns s' →
  ∃ k, field d "key" = VStr k ∧ k ∈ settingKeys
       ∧ isObject (field d "value") = false
       ∧ s' = set_settings state (<[k := field d "value"]> (settings state)).
Proof.
  unfold case_SET_SETTING. intros (key & Hkey & H)%bind_Returns.
  apply bind_Returns in H as (v & Hv & H).
  destruct (truthy key) eqn:Htruthy; [|done].
  pose proof (prop_truthy_object _ _ _ Hkey Htruthy) as Hobj.
  rewrite (prop_field_object _ _ Hobj) in Hkey.
  rewrite (prop_field_object _ _ Hobj) in Hv. simplify_eq.
  cbn [negb] in H. destruct (field d "key") as [| | | |k| |]; try done.
  destruct (settings DEFAULT_STATE !! k) eqn:Hk; [|done].
  destruct (isObject (field d "value")) eqn:Hvalue; [done|]. injection H as <-.
  exists k. split_and!; try done. apply settingKeys_lookup. by eexists.
Qed.

(** X18.  The refusals of [SET_SETTING] on an object, in the order of its
    tests: a falsy key, a key that is not a string, a key that is not one of
    the default settings, and a value that is an object or an array. *)
Theorem SET_SETTING_rejections (state : State) (o : gmap string value) :
  (truthy (get o "key") = false →
   storeReducer constraints baseGt (Some state) (act SET_SETTING (VObj o))
   = Throws (Error "Missing setting key"))
  ∧ (truthy (get o "key") = true → isString (get o "key") = false →
     storeReducer constraints baseGt (Some state) (act SET_SETTING (VObj o))
     = Throws (ErrorOf "Invalid setting key: " (get o "key")))
  ∧ (∀ k, get o "key" = VStr k → k ≠ "" → k ∉ settingKeys →
       storeReducer constraints baseGt (Some state) (act SET_SETTING (VObj o))
       = Throws (ErrorOf "Unsupported setting: " (VStr k)))
  ∧ (∀ k, get o "key" = VStr k → k ∈ settingKeys →
       isObject (get o "value") = true →
       storeReducer constraints baseGt (Some state) (act SET_SETTING (VObj o))
       = Throws (ErrorOf "Invalid setting value: " (get o "value"))).
Proof.
  rewrite storeReducer_act. unfold case_SET_SETTING. cbn [prop mbind result_bind].
  split_and!.
  - by intros ->.
  - intros ->. cbn [negb]. by destruct (get o "key").
  - intros k -> Hk%truthy_VStr Hunsupported. rewrite Hk. cbn [negb].
    destruct (settings DEFAULT_STATE !! k) eqn:Hlookup; [|done].
    destruct Hunsupported. apply settingKeys_lookup. by eexists.
  - intros k -> Hk Hvalue. pose proof Hk as [x Hx]%settingKeys_lookup.
    assert (k ≠ "") as ->%truthy_VStr by (by intros ->).
    cbn [negb]. by rewrite Hx, Hvalue.
Qed.

(** X19.  Whenever [SET_SETTING] returns, the key is one of the default
    settings, the value is neither an object nor an array, and the new state
    differs from the old one in that setting only. *)
Theorem SET_SETTING_sets_one_setting (state : State) (d : value) (s' : State) :
  storeReducer constraints baseGt (Some state) (act SET_SETTING d) = Returns (St s') →
  ∃ k, field d "key" = VStr k ∧ k ∈ settingKeys
       ∧ isObject (field d "value") = false
       ∧ settings s' !! k = Some (field d "value")
       ∧ (∀ k', k' ≠ k → settings s' !! k' = settings state !! k')
       ∧ availableDrives s' = availableDrives state
       ∧ selection s' = selection state
       ∧ isFlashing s' = isFlashing state
       ∧ flashState s' = flashState state
       ∧ flashResults s' = flashResults state.
Proof.
  rewrite storeReducer_act. intros (s0 & H & [= <-])%returns_St.
  apply case_SET_SETTING_inv in H as (k & Hkey & Hk & Hvalue & ->).
  exists k. cbn. split_and!; try done; [by rewrite lookup_insert_eq|].
  intros k' Hk'. by rewrite lookup_insert_ne.
Qed.

(** What any action does to the settings: nothing, or it sets one of the
    default settings to a value that is not an object. *)
Lemma storeReducer_settings (state : State) (a : action) (s' : State) :
  storeReducer constraints baseGt (Some state) a = Returns (St s') →
  settings s' = settings state
  ∨ ∃ k v, k ∈ settingKeys ∧ isObject v = false
           ∧ settings s' = <[k := v]> (settings state).
Proof.
  intros H. pose proof (storeReducer_frames _ _ _ H) as Hframe.
  unfold storeReducer in H. cbn [default] in H.
  destruct (kind_of (type a)) as [[]|];
    try (left; by destruct Hframe as (_ & _ & _ & ?));
    try (left; by subst);
    apply returns_St in H as (s0 & H & [= <-]).
  - unfold case_SET_FLASH_STATE in H. returned H. subst. by left.
  - injection H as <-. by left.
  - injection H as <-. by left.
  - unfold case_UNSET_FLASHING_FLAG in H. returned H. subst. by left.
  - apply case_SET_SETTING_inv in H as (k & _ & Hk & Hvalue & ->). right. eauto.
Qed.

Lemma settingsOk_DEFAULT_STATE : settingsOk DEFAULT_STATE.
Proof.
  split; [by vm_compute|]. intros k v Hlookup.
  assert (k ∈ settingKeys) as Hk by (apply settingKeys_lookup; by eexists).
  repeat (apply elem_of_cons in Hk as [->|Hk];
          [vm_compute in Hlookup; by injection Hlookup as <-|]).
  by apply elem_of_nil in Hk.
Qed.

(** X20.  Starting from the default state, after any number of dispatches
    the settings have exactly the eight default keys and none of their
    values is an object or an array. *)
Theorem settings_keep_the_default_keys (s : State) :
  rtc (step constraints baseGt) DEFAULT_STATE s → settingsOk s.
Proof.
  revert s. apply rtc_ind_r; [apply settingsOk_DEFAULT_STATE|].
  intros s1 s2 _ [a Hstep] [Hdom Hvalues]. unfold settingsOk.
  apply storeReducer_settings in Hstep as [->|(k & v & Hk & Hv & ->)]; [done|].
  split.
  - rewrite dom_insert_L, Hdom.
    apply (elem_of_list_to_set (C := gset string)) in Hk.
    by apply subseteq_union_1_L, singleton_subseteq_l.
  - intros k' v'. destruct (decide (k = k')) as [<-|Hne].
    + rewrite lookup_insert_eq. by intros [= <-].
    + rewrite lookup_insert_ne by done. apply Hvalues.
Qed.

(** X21.  Settings that were persisted under keys other than the default
    ones are merged in as they are, and no dispatch can change or remove
    them afterwards: what [slicer] hands over for persisting still has them,
    with the values that were loaded. *)
Theorem persisted_unsupported_settings_stay (state : State)
    (subset : gmap string value) (s0 s : State) :
  merge state (Some subset) = Some s0 →
  rtc (step constraints baseGt) s0 s →
  ∀ k, k ∉ settingKeys → slicer s !! k = subset !! k.
Proof.
  intros [= <-] Hsteps k Hk. unfold slicer. revert s Hsteps.
  apply rtc_ind_r; [done|]. intros s1 s2 _ [a Hstep] IH.
  apply storeReducer_settings in Hstep as [->|(k' & v & Hk' & _ & ->)]; [done|].
  rewrite lookup_insert_ne; [done|]. by intros ->.
Qed.

End FlashAndSettings.

(** ** What the selection holds *)

Section Validated.

Variable constraints : Constraints.
Variable baseGt : value → value → bool.

Lemma imageStep_trans (s1 s2 s3 : State) :
  imageStep s1 s2 → imageStep s2 s3 → imageStep s1 s3.
Proof.
  unfold imageStep. intros H12 [H23|[H23|H23]]; [|auto..].
  rewrite H23. exact H12.
Qed.

Lemma imageStep_selection (s1 s1' s2 : State) :
  selection s1' !! "image" = selection s1 !! "image" →
  imageStep s1 s2 → imageStep s1' s2.
Proof. unfold imageStep. by intros ->. Qed.

Lemma case_REMOVE_DRIVE_imageStep (s s' : State) :
  case_REMOVE_DRIVE s = Returns s' → imageStep s s'.
Proof.
  rewrite case_REMOVE_DRIVE_Returns. intros [= <-]. unfold imageStep.
  unfold deleteSelection, set_selection. destruct (truthy _); cbn [selection]; lookups;
    auto.
Qed.

Lemma case_SET_AVAILABLE_DRIVES_imageStep (s : State) (data : value) (s' : State) :
  case_SET_AVAILABLE_DRIVES constraints baseGt s data = Returns s' → imageStep s s'.
Proof.
  intros H. pose proof (case_SET_AVAILABLE_DRIVES_collectionsOk _ _ _ _ _ H) as Hc.
  assert (∃ drives, data = VArr (VObj <$> drives)) as [drives ->].
  { unfold case_SET_AVAILABLE_DRIVES in H. destruct (truthy data); [|done].
    destruct (plainObjects data) as [drives|] eqn:Hdrives; [|done].
    exists drives. by apply plainObjects_Some. }
  rewrite case_SET_AVAILABLE_DRIVES_objects in H by done.
  apply bind_Returns in H as (drives' & _ & H). cbv zeta in H.
  assert (∀ s0,
    (if truthy (getSelection s "drive")
        && negb (existsb (λ drive, strict_eq (get drive "device") (getSelection s "drive"))
                         drives')
     then case_REMOVE_DRIVE (set_availableDrives s drives')
     else Returns (set_availableDrives s drives')) = Returns s0 →
    imageStep s s0) as Hcase.
  { intros s0 H0. destruct (_ && _); [|injection H0 as <-; by left].
    by apply case_REMOVE_DRIVE_imageStep in H0. }
  destruct drives' as [|drive' [|]]; try by apply Hcase.
  destruct (autoSelectable _ _ _ _); [|by apply Hcase].
  by apply case_SELECT_DRIVE_inv in H as (? & ? & _ & _ & _ & _ & _ & _ & _ & _ & ? & _).
Qed.

(** What any action does to [selection.image]. *)
Lemma storeReducer_imageStep (state : State) (a : action) (s' : State) :
  storeReducer constraints baseGt (Some state) a = Returns (St s') →
  imageStep state s'.
Proof.
  intros H. pose proof (storeReducer_frames _ _ _ _ _ H) as Hframe.
  unfold storeReducer in H. cbn [default from_option id] in H.
  destruct (kind_of (type a)) as [[]|];
    try (left; by rewrite (proj2 Hframe));
    try (subst; by left);
    try (apply returns_St in H as (s0 & H & [= <-])).
  - by eapply case_SET_AVAILABLE_DRIVES_imageStep.
  - unfold case_SELECT_OS in H. destruct (truthy (data a)); [|done].
    cbn [negb] in H. apply bind_Returns in H as (newState & Hnew & H).
    apply case_SET_AVAILABLE_DRIVES_imageStep in Hnew.
    apply (imageStep_selection _ state) in Hnew;
      [|cbn [selection setSelection set_selection]; by lookups].
    destruct (findDrive _ _); [|by simplify_eq].
    injection H as H. destruct (getRecommendedImage _ _ _ _) as [rec|]; [|done].
    cbn [mbind result_bind] in H. destruct (negb (truthy rec)).
    + destruct (case_REMOVE_DRIVE newState) eqn:Hremove; [|done]. injection H as <-.
      eapply imageStep_trans; [done|]. by apply case_REMOVE_DRIVE_imageStep.
    + destruct (case_SELECT_DRIVE _ _ _) eqn:Hselect; [|done]. injection H as <-.
      eapply imageStep_trans; [done|].
      by apply case_SELECT_DRIVE_inv in Hselect
        as (? & ? & _ & _ & _ & _ & _ & _ & _ & _ & ? & _).
  - by apply case_SELECT_DRIVE_inv in H as (? & ? & _ & _ & _ & _ & _ & _ & _ & _ & ? & _).
  - pose proof (case_SELECT_IMAGE_validImage _ _ _ _ H) as Hvalid.
    rewrite (case_SELECT_IMAGE_valid _ _ _ Hvalid) in H. injection H as <-.
    right. right. exists (data a). split; [|done].
    cbn [selection setSelection set_selection]. by lookups.
  - rewrite case_REMOVE_OS_Returns in H. injection H as <-. unfold imageStep.
    unfold deleteSelection, set_selection. destruct (truthy _); cbn [selection];
      lookups; auto.
  - by apply case_REMOVE_DRIVE_imageStep.
  - injection H as <-. right. left. cbn [selection deleteSelection set_selection].
    by lookups.
Qed.

(** X22.  In every state of the store the selected drive is a non-empty
    string, the selected operating system is a collection, and the selected
    image is an image that [SELECT_IMAGE] accepts: an object with a non-empty
    string [path], a number [size] other than [0] and [NaN], and optional
    fields that are strings or falsy. *)
Theorem the_selection_is_validated (s : State) :
  reachable constraints baseGt s →
  (∀ d, selection s !! "drive" = Some d → ∃ dev, d = VStr dev ∧ dev ≠ "")
  ∧ (∀ os, selection s !! "os" = Some os → isObject os = true)
  ∧ (∀ image, selection s !! "image" = Some image → validImage image = true).
Proof.
  intros Hreachable. pose proof (reachable_wf _ _ _ Hreachable) as [Hdrive [Hos _]].
  split_and!; [|done|].
  - intros d Hd. destruct (Hdrive _ Hd) as (dev & ? & ? & _). eauto.
  - clear Hdrive Hos.
    induction Hreachable as [|subset|s a s' _ IH Hstep]; [done..|].
    intros image Himage.
    apply storeReducer_imageStep in Hstep as [Hsame|[Hnone|(data & Hdata & Hvalid)]].
    + apply IH. by rewrite <- Hsame.
    + congruence.
    + congruence.
Qed.

End Validated.

(** ** Instances of the further properties on the example data *)

(** X1 on [/dev/sda] and [os_8G], and on [os_64G], whose image is too large
    for it. *)
Lemma getRecommendedImage_sound_witness :
  getRecommendedImage sizePolicy numberGt (VObj sda) os_8G = Returns image_8G
  ∧ (image_8G = VUndef
     ∨ ∃ l size,
         field os_8G "images" = VArr l ∧ image_8G ∈ l
         ∧ isDriveSizeRecommended sizePolicy (VObj sda) image_8G = true
         ∧ prop image_8G "recommendedDriveSize" = Returns size
         ∧ size ≠ VUndef ∧ size ≠ VNull)
  ∧ getRecommendedImage sizePolicy numberGt (VObj sda) os_64G = Returns VUndef.
Proof.
  assert (getRecommendedImage sizePolicy numberGt (VObj sda) os_8G = Returns image_8G)
    as H by (vm_compute; reflexivity).
  destruct (getRecommendedImage_sound sizePolicy numberGt (VObj sda) os_8G) as [Hsound _].
  destruct (getRecommendedImage_sound sizePolicy numberGt (VObj sda) os_64G) as [_ Hnone].
  split_and!; [exact H|exact (Hsound _ H)|].
  apply Hnone; [reflexivity|].
  intros l image [= <-] Hin%list_elem_of_In. cbn in Hin.
  destruct Hin as [<-|[]]. vm_compute. reflexivity.
Defined.

(** X2 on [/dev/sda] and [os_four_images]: of the two images of 8 GB the
    first is returned. *)
Lemma getRecommendedImage_largest_witness :
  ∃ l1 r l2 z,
    getRecommendedImage sizePolicy numberGt (VObj sda) os_four_images = Returns r
    ∧ [image_4G; image_8G; image_64G; image_8G_desktop] = l1 ++ r :: l2
    ∧ r = image_8G ∧ z = 8000000000%Z.
Proof.
  destruct (getRecommendedImage_largest sizePolicy numberGt (VObj sda) os_four_images
              [image_4G; image_8G; image_64G; image_8G_desktop])
    as (l1 & r & l2 & z & Hr & Hl & _ & Hz & _).
  - intros x y. reflexivity.
  - reflexivity.
  - reflexivity.
  - intros image Hin%list_elem_of_In _. cbn in Hin.
    destruct Hin as [<-|[<-|[<-|[<-|[]]]]]; eexists; reflexivity.
  - exists image_4G. split; [constructor|reflexivity].
  - exists l1, r, l2, z. split_and!; [exact Hr|exact Hl| |].
    + assert (getRecommendedImage sizePolicy numberGt (VObj sda) os_four_images
              = Returns image_8G) as H by (vm_compute; reflexivity).
      rewrite H in Hr. by injection Hr.
    + assert (getRecommendedImage sizePolicy numberGt (VObj sda) os_four_images
              = Returns image_8G) as H by (vm_compute; reflexivity).
      rewrite H in Hr. injection Hr as <-.
      vm_compute in Hz. by injection Hz.
Defined.

(** X3 on [REMOVE_DRIVE] in [state_os_8G_sda]. *)
Lemma removals_are_idempotent_witness :
  ∃ s', storeReducer sizePolicy numberGt (Some state_os_8G_sda) (act REMOVE_DRIVE VUndef)
        = Returns (St s')
        ∧ storeReducer sizePolicy numberGt (Some s') (act REMOVE_DRIVE VUndef)
          = Returns (St s').
Proof.
  apply (removals_are_idempotent sizePolicy numberGt state_os_8G_sda REMOVE_DRIVE).
  right. right. reflexivity.
Defined.

(** X5 on a local image file and on a payload without a size. *)
Lemma SELECT_IMAGE_accepts_exactly_the_valid_images_witness :
  (∃ s', storeReducer sizePolicy numberGt (Some state_sda_selected)
           (act SELECT_IMAGE image_file) = Returns (St s')
         ∧ selection s' !! "image" = Some image_file
         ∧ selection s' !! "drive" = Some (VStr "/dev/sda"))
  ∧ ∃ e, storeReducer sizePolicy numberGt (Some state_sda_selected)
           (act SELECT_IMAGE (VObj (object [("path", VStr "/home/user/os.img")])))
         = Throws e.
Proof.
  split.
  - destruct (SELECT_IMAGE_accepts_exactly_the_valid_images sizePolicy numberGt
                state_sda_selected image_file) as [_ Hvalid].
    destruct (Hvalid eq_refl) as (s' & Hs' & Himage & _ & Hdrive & _).
    exists s'. split_and!; [exact Hs'|exact Himage|exact Hdrive].
  - apply (SELECT_IMAGE_accepts_exactly_the_valid_images sizePolicy numberGt
             state_sda_selected). reflexivity.
Defined.

(** X6 on five refused selections. *)
Lemma SELECT_DRIVE_rejections_witness :
  storeReducer sizePolicy numberGt (Some state_sda_protected) (act SELECT_DRIVE VUndef)
  = Throws (Error "Missing drive")
  ∧ storeReducer sizePolicy numberGt (Some state_sda_protected)
      (act SELECT_DRIVE (VNum (Num 5)))
    = Throws (ErrorOf "Invalid drive: " (VNum (Num 5)))
  ∧ storeReducer sizePolicy numberGt (Some state_sda_protected)
      (act SELECT_DRIVE (VStr "/dev/sdz"))
    = Throws (ErrorOf "The drive is not available: " (VStr "/dev/sdz"))
  ∧ storeReducer sizePolicy numberGt (Some state_sda_protected)
      (act SELECT_DRIVE (VStr "/dev/sda"))
    = Throws (Error "The drive is write-protected")
  ∧ storeReducer sizePolicy numberGt (Some state_image_20G)
      (act SELECT_DRIVE (VStr "/dev/sda"))
    = Throws (Error "The drive is not large enough").
Proof.
  split_and!.
  - apply (SELECT_DRIVE_rejections sizePolicy numberGt state_sda_protected VUndef).
    reflexivity.
  - apply (SELECT_DRIVE_rejections sizePolicy numberGt state_sda_protected (VNum (Num 5)));
      reflexivity.
  - destruct (SELECT_DRIVE_rejections sizePolicy numberGt state_sda_protected
                (VStr "/dev/sdz")) as (_ & _ & H & _).
    apply (H "/dev/sdz"); [reflexivity|discriminate|].
    intros drive Hin%list_elem_of_In. cbn in Hin.
    destruct Hin as [<-|[<-|[]]]; vm_compute; discriminate.
  - destruct (SELECT_DRIVE_rejections sizePolicy numberGt state_sda_protected
                (VStr "/dev/sda")) as (_ & _ & _ & H & _).
    apply (H "/dev/sda" sda_protected);
      [reflexivity|discriminate|vm_compute; reflexivity|vm_compute; reflexivity].
  - destruct (SELECT_DRIVE_rejections sizePolicy numberGt state_image_20G
                (VStr "/dev/sda")) as (_ & _ & _ & _ & H).
    apply (H "/dev/sda" sda image_20G);
      [reflexivity|discriminate|vm_compute; reflexivity..].
Defined.


(** X8 on [/dev/sda]: with no operating system, with an operating system
    that has no image for it, and with one that has. *)
Lemma SELECT_DRIVE_selects_witness :
  storeReducer sizePolicy numberGt (Some state_two_drives)
    (act SELECT_DRIVE (VStr "/dev/sda"))
  = Returns (St state_sda_selected)
  ∧ storeReducer sizePolicy numberGt (Some state_os_64G)
      (act SELECT_DRIVE (VStr "/dev/sda"))
    = Returns (St (setSelection state_os_64G "drive" (VStr "/dev/sda")))
  ∧ storeReducer sizePolicy numberGt (Some state_os_8G)
      (act SELECT_DRIVE (VStr "/dev/sda"))
    = Returns (St state_os_8G_sda).
Proof.
  split_and!.
  - apply (SELECT_DRIVE_selects sizePolicy numberGt state_two_drives "/dev/sda" sda);
      [discriminate|vm_compute; reflexivity|reflexivity|reflexivity|].
    left. reflexivity.
  - apply (proj1 (proj2 (SELECT_DRIVE_selects sizePolicy numberGt state_os_64G
                           "/dev/sda" sda ltac:(discriminate) eq_refl eq_refl)) os_64G);
      vm_compute; reflexivity.
  - apply (proj2 (proj2 (SELECT_DRIVE_selects sizePolicy numberGt state_os_8G
                           "/dev/sda" sda_8G ltac:(discriminate) eq_refl eq_refl))
             os_8G (VObj selected_8G));
      vm_compute; reflexivity.
Defined.

(** X9 on [null] and on a string. *)
Lemma SET_AVAILABLE_DRIVES_rejections_witness :
  storeReducer sizePolicy numberGt (Some DEFAULT_STATE) (act SET_AVAILABLE_DRIVES VNull)
  = Throws (Error "Missing drives")
  ∧ storeReducer sizePolicy numberGt (Some DEFAULT_STATE)
      (act SET_AVAILABLE_DRIVES (VStr "/dev/sda"))
    = Throws (ErrorOf "Invalid drives: " (VStr "/dev/sda")).
Proof.
  split.
  - apply (SET_AVAILABLE_DRIVES_rejections sizePolicy numberGt DEFAULT_STATE VNull).
    reflexivity.
  - apply (SET_AVAILABLE_DRIVES_rejections sizePolicy numberGt DEFAULT_STATE
             (VStr "/dev/sda")); [reflexivity|discriminate].
Defined.

(** X10 on the two drives, once [os_8G] is selected. *)
Lemma SET_AVAILABLE_DRIVES_annotates_witness :
  storeReducer sizePolicy numberGt (Some (setSelection DEFAULT_STATE "os" os_8G))
    (act SET_AVAILABLE_DRIVES (VArr [VObj sda; VObj sdb]))
  = Returns (St state_os_8G)
  ∧ ∃ drives,
      VArr [VObj sda; VObj sdb] = VArr (VObj <$> drives)
      ∧ Forall2 (annotated sizePolicy os_8G) drives (availableDrives state_os_8G).
Proof.
  assert (storeReducer sizePolicy numberGt (Some (setSelection DEFAULT_STATE "os" os_8G))
            (act SET_AVAILABLE_DRIVES (VArr [VObj sda; VObj sdb]))
          = Returns (St state_os_8G)) as H by (vm_compute; reflexivity).
  split; [exact H|].
  destruct (SET_AVAILABLE_DRIVES_annotates sizePolicy numberGt _ _ _ H)
    as (drives & Hdata & Hannotated & _).
  exists drives. split; [exact Hdata|exact Hannotated].
Defined.

(** X11 on [state_os_8G_sda] and a list that still has [/dev/sda]. *)
Lemma SET_AVAILABLE_DRIVES_keeps_the_selection_witness :
  ∃ s', storeReducer sizePolicy numberGt (Some state_os_8G_sda)
          (act SET_AVAILABLE_DRIVES (VArr (VObj <$> [sdc; sda]))) = Returns (St s')
        ∧ selection s' = selection state_os_8G_sda.
Proof.
  assert (∃ s', storeReducer sizePolicy numberGt (Some state_os_8G_sda)
                  (act SET_AVAILABLE_DRIVES (VArr (VObj <$> [sdc; sda])))
                = Returns (St s')) as [s' Hs'].
  { eexists. vm_compute. reflexivity. }
  exists s'. split; [exact Hs'|].
  apply (SET_AVAILABLE_DRIVES_keeps_the_selection sizePolicy numberGt _ _ _ Hs').
  - intros (drive & drive' & Heq & _). discriminate Heq.
  - right. exists "/dev/sda", sda. split_and!; [reflexivity| |reflexivity].
    apply list_elem_of_In. right. left. reflexivity.
Defined.

(** X12 on [state_os_8G_sda] and [/dev/sdb] alone. *)
Lemma SET_AVAILABLE_DRIVES_selects_a_single_drive_witness :
  ∃ s', storeReducer sizePolicy numberGt (Some state_os_8G_sda)
          (act SET_AVAILABLE_DRIVES (VArr (VObj <$> [sdb]))) = Returns (St s')
        ∧ selection s' !! "drive" = Some (VStr "/dev/sdb").
Proof.
  assert (∃ s', storeReducer sizePolicy numberGt (Some state_os_8G_sda)
                  (act SET_AVAILABLE_DRIVES (VArr (VObj <$> [sdb])))
                = Returns (St s')) as [s' Hs'].
  { eexists. vm_compute. reflexivity. }
  exists s'. split; [exact Hs'|].
  destruct (SET_AVAILABLE_DRIVES_selects_a_single_drive sizePolicy numberGt
              state_os_8G_sda sdb s') as (dev & Hdev & _ & _ & Hselected);
    [|exact Hs'|].
  - exists sdb, sdb_8G. split_and!; vm_compute; reflexivity.
  - vm_compute in Hdev. injection Hdev as <-. exact Hselected.
Defined.


(** X14 on [os_8G] with the two drives attached. *)
Lemma SELECT_OS_selects_the_os_witness :
  storeReducer sizePolicy numberGt (Some state_two_drives) (act SELECT_OS os_8G)
  = Returns (St state_os_8G)
  ∧ selection state_os_8G !! "os" = Some os_8G
  ∧ Forall2 (annotated sizePolicy os_8G)
            (availableDrives state_two_drives) (availableDrives state_os_8G).
Proof.
  assert (storeReducer sizePolicy numberGt (Some state_two_drives) (act SELECT_OS os_8G)
          = Returns (St state_os_8G)) as H by (vm_compute; reflexivity).
  destruct (SELECT_OS_selects_the_os sizePolicy numberGt _ _ _ H)
    as (_ & Hos & Hannotated & _).
  split_and!; [exact H|exact Hos|exact Hannotated].
Defined.

(** X15 on [/dev/sda] and [os_64G], whose image is too large for it. *)
Lemma SELECT_OS_drops_a_drive_without_image_witness :
  findDrive state_sda_selected (getSelection state_sda_selected "drive") = Some sda
  ∧ getRecommendedImage sizePolicy numberGt (VObj sda) os_64G = Returns VUndef
  ∧ storeReducer sizePolicy numberGt (Some state_sda_selected) (act SELECT_OS os_64G)
    = Returns (St state_os_64G)
  ∧ selection state_os_64G !! "drive" = None.
Proof.
  assert (storeReducer sizePolicy numberGt (Some state_sda_selected) (act SELECT_OS os_64G)
          = Returns (St state_os_64G)) as H by (vm_compute; reflexivity).
  assert (findDrive state_sda_selected (getSelection state_sda_selected "drive")
          = Some sda) as Hfind by (vm_compute; reflexivity).
  assert (getRecommendedImage sizePolicy numberGt (VObj sda) os_64G = Returns VUndef)
    as Hrec by (vm_compute; reflexivity).
  destruct (SELECT_OS_drops_a_drive_without_image sizePolicy numberGt _ _ _ _ _
              Hfind Hrec eq_refl H) as (s' & [= <-] & _ & Hdrive & _).
  split_and!; [exact Hfind|exact Hrec|exact H|exact Hdrive].
Defined.

(** X16 on the selection of [/dev/sda] in [state_os_8G]. *)
Lemma selection_and_flash_are_independent_witness :
  storeReducer sizePolicy numberGt (Some state_os_8G) (act SELECT_DRIVE (VStr "/dev/sda"))
  = Returns (St state_os_8G_sda)
  ∧ same_rest state_os_8G state_os_8G_sda.
Proof.
  split; [exact state_os_8G_sda_reached|].
  apply (selection_and_flash_are_independent sizePolicy numberGt state_os_8G
           SELECT_DRIVE (VStr "/dev/sda") state_os_8G_sda state_os_8G_sda_reached).
  apply list_elem_of_In. cbn. tauto.
Defined.

(** X17 on [state_os_8G_sda]. *)
Lemma flash_fields_follow_isFlashing_witness :
  reachable sizePolicy numberGt state_os_8G_sda ∧ flashOk state_os_8G_sda.
Proof.
  split; [exact state_os_8G_sda_reachable|].
  exact (flash_fields_follow_isFlashing sizePolicy numberGt state_os_8G_sda
           state_os_8G_sda_reachable).
Defined.

(** X18 on four refused settings. *)
Lemma SET_SETTING_rejections_witness :
  storeReducer sizePolicy numberGt (Some DEFAULT_STATE)
    (act SET_SETTING (VObj (object [("value", VBool true)])))
  = Throws (Error "Missing setting key")
  ∧ storeReducer sizePolicy numberGt (Some DEFAULT_STATE)
      (act SET_SETTING (VObj (object [("key", VNum (Num 1)); ("value", VBool true)])))
    = Throws (ErrorOf "Invalid setting key: " (VNum (Num 1)))
  ∧ storeReducer sizePolicy numberGt (Some DEFAULT_STATE)
      (act SET_SETTING (VObj (object [("key", VStr "colour"); ("value", VStr "red")])))
    = Throws (ErrorOf "Unsupported setting: " (VStr "colour"))
  ∧ storeReducer sizePolicy numberGt (Some DEFAULT_STATE)
      (act SET_SETTING (VObj (object [("key", VStr "unsafeMode"); ("value", VArr [])])))
    = Throws (ErrorOf "Invalid setting value: " (VArr [])).
Proof.
  split_and!.
  - apply (SET_SETTING_rejections sizePolicy numberGt DEFAULT_STATE
             (object [("value", VBool true)])). reflexivity.
  - apply (SET_SETTING_rejections sizePolicy numberGt DEFAULT_STATE
             (object [("key", VNum (Num 1)); ("value", VBool true)])); reflexivity.
  - destruct (SET_SETTING_rejections sizePolicy numberGt DEFAULT_STATE
                (object [("key", VStr "colour"); ("value", VStr "red")]))
      as (_ & _ & H & _).
    apply (H "colour"); [reflexivity|discriminate|].
    intros Hin%list_elem_of_In. cbn in Hin. intuition discriminate.
  - destruct (SET_SETTING_rejections sizePolicy numberGt DEFAULT_STATE
                (object [("key", VStr "unsafeMode"); ("value", VArr [])]))
      as (_ & _ & _ & H).
    apply (H "unsafeMode"); [reflexivity|constructor|reflexivity].
Defined.

Lemma state_unsafe_reached :
  storeReducer sizePolicy numberGt (Some DEFAULT_STATE)
    (act SET_SETTING (VObj (object [("key", VStr "unsafeMode"); ("value", VBool true)])))
  = Returns (St state_unsafe).
Proof. vm_compute. reflexivity. Qed.

(** X19 on [unsafeMode]. *)
Lemma SET_SETTING_sets_one_setting_witness :
  storeReducer sizePolicy numberGt (Some DEFAULT_STATE)
    (act SET_SETTING (VObj (object [("key", VStr "unsafeMode"); ("value", VBool true)])))
  = Returns (St state_unsafe)
  ∧ settings state_unsafe !! "unsafeMode" = Some (VBool true)
  ∧ settings state_unsafe !! "errorReporting" = settings DEFAULT_STATE !! "errorReporting".
Proof.
  destruct (SET_SETTING_sets_one_setting sizePolicy numberGt _ _ _ state_unsafe_reached)
    as (k & [= <-] & _ & _ & Hset & Hothers & _).
  split_and!; [exact state_unsafe_reached|exact Hset|].
  apply Hothers. discriminate.
Defined.

(** X20 on [state_unsafe]. *)
Lemma settings_keep_the_default_keys_witness :
  rtc (step sizePolicy numberGt) DEFAULT_STATE state_unsafe ∧ settingsOk state_unsafe.
Proof.
  assert (rtc (step sizePolicy numberGt) DEFAULT_STATE state_unsafe) as H.
  { apply rtc_once. eexists. exact state_unsafe_reached. }
  split; [exact H|].
  exact (settings_keep_the_default_keys sizePolicy numberGt state_unsafe H).
Defined.

(** X21 on persisted settings with a [theme], after a [SET_SETTING]. *)
Lemma persisted_unsupported_settings_stay_witness :
  ∃ s, rtc (step sizePolicy numberGt) (set_settings DEFAULT_STATE persisted_theme) s
       ∧ slicer s !! "errorReporting" = Some (VBool false)
       ∧ slicer s !! "theme" = Some (VStr "dark").
Proof.
  assert (∃ s, storeReducer sizePolicy numberGt
                 (Some (set_settings DEFAULT_STATE persisted_theme))
                 (act SET_SETTING (VObj (object [("key", VStr "errorReporting");
                                                 ("value", VBool false)])))
               = Returns (St s)
               ∧ slicer s !! "errorReporting" = Some (VBool false)) as (s & Hs & Hset).
  { eexists. split; vm_compute; reflexivity. }
  assert (rtc (step sizePolicy numberGt) (set_settings DEFAULT_STATE persisted_theme) s)
    as Hsteps.
  { apply rtc_once. eexists. exact Hs. }
  exists s. split_and!; [exact Hsteps|exact Hset|].
  rewrite (persisted_unsupported_settings_stay sizePolicy numberGt DEFAULT_STATE
             persisted_theme _ s eq_refl Hsteps "theme").
  - reflexivity.
  - intros Hin%list_elem_of_In. cbn in Hin. intuition discriminate.
Defined.

(** X22 on [state_os_8G_sda]. *)
Lemma the_selection_is_validated_witness :
  reachable sizePolicy numberGt state_os_8G_sda
  ∧ validImage (VObj selected_8G) = true.
Proof.
  split; [exact state_os_8G_sda_reachable|].
  destruct (the_selection_is_validated sizePolicy numberGt state_os_8G_sda
              state_os_8G_sda_reachable) as (_ & _ & Himage).
  apply Himage. reflexivity.
Defined.
